(** * The operation-registry agent
    (packages/apollo-server-plugin-operation-registry/src/agent.ts)

    A shallow embedding of the [Agent] class: its constructor, the scheduler
    ([start], [stop], [checkForUpdate]), the fetcher ([tryUpdate]) and the
    reconciler ([updateManifest]), followed by the properties of the
    specification that concern them. *)

From stdpp Require Import gmap strings list pretty.
From Stdlib Require Import ZArith.

Local Open Scope Z_scope.
Local Open Scope string_scope.
Local Open Scope list_scope.

(** ** The manifest entries

    [interface Operation { signature: string; document: string }] *)

Record Operation := mkOperation { signature : string; document : string }.

(** ** JavaScript values, as far as the agent looks at them *)

Module Js.

(** Values that reach the agent untyped ([engine: any], the body decoded by
    [response.json()], the result of [JSON.parse]).  Numbers are the
    integer-valued ones.  An array carries its entries at their declared type
    [Array<Operation>]: the agent walks no other array, and its guards never look
    inside one. *)
#[warnings="-register-all"]
Inductive value :=
| VUndefined
| VNull
| VBool (b : bool)
| VNumber (n : Z)
| VString (s : string)
| VArray (items : list Operation)
| VObject (fields : list (string * value)).

(** A thrown [Error] object: its [name] and its [message]. *)
Record error := mkError { name : string; message : string }.

Definition Error (msg : string) : error := mkError "Error" msg.
Definition TypeError (msg : string) : error := mkError "TypeError" msg.

(** [String(err)], i.e. [Error.prototype.toString]. *)
Definition error_toString (e : error) : string :=
  if bool_decide (message e = "") then name e
  else name e +:+ ": " +:+ message e.

(** A computation that returns or throws; also what a promise settles to
    (fulfilled with a value, or rejected with an error). *)
Inductive result (A : Type) :=
| Ok (a : A)
| Throw (e : error).
Global Arguments Ok {A} a.
Global Arguments Throw {A} e.

(** ToBoolean. *)
Definition truthy (v : value) : bool :=
  match v with
  | VUndefined | VNull => false
  | VBool b => b
  | VNumber n => negb (n =? 0)%Z
  | VString s => negb (bool_decide (s = ""))
  | VArray _ | VObject _ => true
  end.

Definition typeof (v : value) : string :=
  match v with
  | VUndefined => "undefined"
  | VNull | VArray _ | VObject _ => "object"
  | VBool _ => "boolean"
  | VNumber _ => "number"
  | VString _ => "string"
  end.

Fixpoint assoc (k : string) (fields : list (string * value)) : option value :=
  match fields with
  | [] => None
  | (k', v) :: rest => if bool_decide (k = k') then Some v else assoc k rest
  end.

(** Property read [v.k] of a data property.  Reading from [undefined] or [null]
    throws; a missing property reads as [undefined].  The names the agent reads
    ([version], [operations], [serviceID]) are none of the built-in properties of
    primitives and arrays. *)
Definition get (v : value) (k : string) : result value :=
  match v with
  | VUndefined | VNull =>
      Throw (TypeError ("Cannot read property '" +:+ k +:+ "' of " +:+
                        (if v is VNull then "null" else "undefined")))
  | VObject fields => Ok (default VUndefined (assoc k fields))
  | _ => Ok VUndefined
  end.

(** Strict equality with the number [1], as in [manifest.version !== 1]. *)
Definition is_number_1 (v : value) : bool :=
  match v with
  | VNumber n => (n =? 1)%Z
  | _ => false
  end.

(** ToString, as a template literal applies it. *)
Definition toString (v : value) : string :=
  match v with
  | VUndefined => "undefined"
  | VNull => "null"
  | VBool true => "true"
  | VBool false => "false"
  | VNumber n => pretty n
  | VString s => s
  | VArray items =>
      String.concat "," ((fun _ => "[object Object]") <$> items)
  | VObject _ => "[object Object]"
  end.

End Js.

Import Js.

(** ** The insertion-ordered [Set<string>] and the [Map<string, string>] *)

(** [type SignatureStore = Set<string>]: the elements in insertion order,
    without repetition. *)
Definition SignatureStore := list string.

Definition Set_has (s : SignatureStore) (x : string) : bool :=
  bool_decide (x ∈ s).

Definition Set_add (x : string) (s : SignatureStore) : SignatureStore :=
  if Set_has s x then s else s ++ [x].

Definition Map_has (m : gmap string string) (k : string) : bool :=
  bool_decide (is_Some (m !! k)).

(** ** What the agent does to the outside world *)

Definition TimerId := positive.

(** The [RequestInit] handed to [fetch]. *)
Record RequestInit := mkRequestInit {
  method : string;
  timeout : Z;
  headers : list (string * value);
}.

(** The part of a [Response] the agent reads.  Header names are lower case, as
    [Headers.get] matches them. *)
Record Response := mkResponse {
  status : Z;
  response_headers : gmap string string;
  text : string;              (* await response.text() *)
  json : result value;        (* await response.json() *)
}.

(** [response.ok]: a status in the range 200-299. *)
Definition ok (r : Response) : bool := (200 <=? status r)%Z && (status r <? 300)%Z.

Definition headers_get (r : Response) (h : string) : option string :=
  response_headers r !! h.

(** Calls on collaborators, in the order the agent issues them: the
    [KeyValueCache] ([set], [delete]), the console, [fetch] and the timers.  The
    agent does not await the promises of [set] and [delete]: a call on the cache is
    its being issued. *)
Inductive effect :=
| CacheSet (key value : string)
| CacheDelete (key : string)
| ConsoleDebug (msg : string)
| ConsoleWarn (msg : string)
| ConsoleError (args : list string)
| Fetch (url : string) (init : RequestInit)
| SetInterval (id : TimerId) (ms : Z)
| ClearInterval (id : TimerId).

(** ** The agent's fields *)

Record AgentOptions := mkAgentOptions {
  debug : option bool;
  pollSeconds : option Z;
  schemaHash : value;
  engine : value;
}.

Record Agent := mkAgent {
  timer : option TimerId;
  hashedServiceId : option string;
  (* Promise<void> | null: the promise is held as what it settles to *)
  requestInFlight : option (result unit);
  (* a Date, in milliseconds *)
  lastSuccessfulCheck : option Z;
  _timesChecked : Z;
  (* declared a string; it holds what JSON.parse returned *)
  lastSuccessfulETag : option value;
  lastOperationSignatures : SignatureStore;
  options : AgentOptions;
}.

Definition set_timer (t : option TimerId) (a : Agent) : Agent :=
  mkAgent t (hashedServiceId a) (requestInFlight a) (lastSuccessfulCheck a)
    (_timesChecked a) (lastSuccessfulETag a) (lastOperationSignatures a) (options a).
Definition set_hashedServiceId (h : option string) (a : Agent) : Agent :=
  mkAgent (timer a) h (requestInFlight a) (lastSuccessfulCheck a)
    (_timesChecked a) (lastSuccessfulETag a) (lastOperationSignatures a) (options a).
Definition set_requestInFlight (p : option (result unit)) (a : Agent) : Agent :=
  mkAgent (timer a) (hashedServiceId a) p (lastSuccessfulCheck a)
    (_timesChecked a) (lastSuccessfulETag a) (lastOperationSignatures a) (options a).
Definition set_lastSuccessfulCheck (d : option Z) (a : Agent) : Agent :=
  mkAgent (timer a) (hashedServiceId a) (requestInFlight a) d
    (_timesChecked a) (lastSuccessfulETag a) (lastOperationSignatures a) (options a).
Definition set_timesChecked (n : Z) (a : Agent) : Agent :=
  mkAgent (timer a) (hashedServiceId a) (requestInFlight a) (lastSuccessfulCheck a)
    n (lastSuccessfulETag a) (lastOperationSignatures a) (options a).
Definition set_lastSuccessfulETag (e : option value) (a : Agent) : Agent :=
  mkAgent (timer a) (hashedServiceId a) (requestInFlight a) (lastSuccessfulCheck a)
    (_timesChecked a) e (lastOperationSignatures a) (options a).
Definition set_lastOperationSignatures (s : SignatureStore) (a : Agent) : Agent :=
  mkAgent (timer a) (hashedServiceId a) (requestInFlight a) (lastSuccessfulCheck a)
    (_timesChecked a) (lastSuccessfulETag a) s (options a).

(** ** Methods: state of [this], effects issued, and return or throw *)

Definition M (A : Type) : Type := Agent → Agent * list effect * result A.

Definition ret {A} (x : A) : M A := λ a, (a, [], Ok x).

Definition bind {A B} (m : M A) (k : A → M B) : M B := λ a,
  match m a with
  | (a1, t1, Ok x) => let '(a2, t2, r) := k x a1 in (a2, t1 ++ t2, r)
  | (a1, t1, Throw e) => (a1, t1, Throw e)
  end.

#[global] Instance M_ret : MRet M := @ret.
#[global] Instance M_bind : MBind M := λ A B k m, bind m k.

Definition throw {A} (e : error) : M A := λ a, (a, [], Throw e).
Definition this : M Agent := λ a, (a, [], Ok a).
Definition modify (f : Agent → Agent) : M unit := λ a, (f a, [], Ok tt).
Definition emit (e : effect) : M unit := λ a, (a, [e], Ok tt).
Definition lift {A} (r : result A) : M A := λ a, (a, [], r).

(** [try { m } catch (err) { h err }] *)
Definition try_catch {A} (m : M A) (h : error → M A) : M A := λ a,
  match m a with
  | (a1, t1, Ok x) => (a1, t1, Ok x)
  | (a1, t1, Throw e) => let '(a2, t2, r) := h e a1 in (a2, t1 ++ t2, r)
  end.

Definition state_of {A} (x : Agent * list effect * result A) : Agent := x.1.1.
Definition trace_of {A} (x : Agent * list effect * result A) : list effect := x.1.2.
Definition outcome_of {A} (x : Agent * list effect * result A) : result A := x.2.

(** Repetition of a loop body over the elements of an iterable, in order; a
    throw leaves the loop. *)
Fixpoint for_of {A S : Type} (xs : list A) (body : A → S → M S) (s : S) : M S :=
  match xs with
  | [] => mret s
  | x :: rest => s' ← body x s; for_of rest body s'
  end.

(** ** What the agent imports *)

(** Modelled from the spec: [getCacheKey] is imported from [./common], a file
    that is not among the sources.  The spec gives the keys of the agent as
    ["apq:" + signature], and so does the function this import replaced, [cacheKey]
    of apollo-server-plugin-engine-operation-registry/src/agent.ts:
    [(signature) => `apq:${signature}`]. *)
Definition getCacheKey (signature : string) : string := "apq:" +:+ signature.

(** The other two imports from [./common], and the built-ins of the language
    whose results the agent stores or prints. *)
Class Platform := {
  getOperationManifestUrl : string → value → string;
  generateServiceIdHash : value → string;
  JSON_parse : string → result value;
  Date_toString : Z → string;
}.

Definition DEFAULT_POLL_SECONDS : Z := 30.
Definition SYNC_WARN_TIME_SECONDS : Z := 60.

(** What [timeSinceLastSuccessfulCheck] can return: a difference of two
    timestamps, or [-Infinity]. *)
Inductive number :=
| NegInfinity
| Finite (ms : Z).

(** [x > y] for such an [x] and a finite [y]. *)
Definition number_gt (x : number) (y : Z) : bool :=
  match x with
  | NegInfinity => false
  | Finite ms => (y <? ms)%Z
  end.

(** What a caller of [checkForUpdate] is handed by its synchronous part: the
    stored marker, or the promise chain of a check that has just begun. *)
Inductive CheckReturn :=
| InFlight (p : result unit)
| NewCheck.

(** * The class *)

Section Agent.

Context `{Platform}.

(** The fields as their initialisers leave them, before the constructor body. *)
Definition new_fields (opts : AgentOptions) : Agent :=
  mkAgent None None None None 0 None [] opts.

Definition constructor : M unit :=
  a ← this;
  if negb (truthy (schemaHash (options a))) then
    throw (Error "`schemaHash` must be passed to the Agent.")
  else if bool_decide (typeof (engine (options a)) ≠ "object") then
    throw (Error "`engine.serviceID` must be passed to the Agent.")
  else
    serviceID ← lift (get (engine (options a)) "serviceID");
    if bool_decide (typeof serviceID ≠ "string") then
      throw (Error "`engine.serviceID` must be passed to the Agent.")
    else mret tt.

(** [new Agent(options)]: the object, unless the constructor throws. *)
Definition new_Agent (opts : AgentOptions) : list effect * result Agent :=
  match constructor (new_fields opts) with
  | (a, t, Ok _) => (t, Ok a)
  | (_, t, Throw e) => (t, Throw e)
  end.

Definition requestPending : M (option (result unit)) :=
  a ← this; mret (requestInFlight a).

Definition getHashedServiceId : M string :=
  a ← this;
  h ← match hashedServiceId a with
      | Some h => if bool_decide (h = "") then
                    serviceID ← lift (get (engine (options a)) "serviceID");
                    mret (generateServiceIdHash serviceID)
                  else mret h
      | None => serviceID ← lift (get (engine (options a)) "serviceID");
                mret (generateServiceIdHash serviceID)
      end;
  modify (set_hashedServiceId (Some h));;
  mret h.

(** The method [pollSeconds()]; the option has the name. *)
Definition get_pollSeconds (a : Agent) : Z :=
  match pollSeconds (options a) with
  | Some n => if (n =? 0)%Z then DEFAULT_POLL_SECONDS else n
  | None => DEFAULT_POLL_SECONDS
  end.

Definition timeSinceLastSuccessfulCheck (now : Z) (a : Agent) : number :=
  match lastSuccessfulCheck a with
  | None => NegInfinity
  | Some last => Finite (now - last)
  end.

Definition warnWhenLossOfSync (now : Z) : M unit :=
  a ← this;
  if number_gt (timeSinceLastSuccessfulCheck now a) (SYNC_WARN_TIME_SECONDS * 1000) then
    emit (ConsoleWarn
      ("WARNING: More than " +:+ pretty SYNC_WARN_TIME_SECONDS +:+
       " seconds has elapsed since a successful fetch of the manifest. (Last success: " +:+
       match lastSuccessfulCheck a with
       | Some last => Date_toString last
       | None => "undefined"
       end +:+ ")"))
  else mret tt.

Definition maybeLog (msg : string) : M unit :=
  a ← this;
  if debug (options a) is Some true then emit (ConsoleDebug msg) else mret tt.

(** What [maybeLog] prints. *)
Definition log_line (a : Agent) (msg : string) : list effect :=
  if debug (options a) is Some true then [ConsoleDebug msg] else [].

Definition updateManifest (manifest : value) : M unit :=
  if negb (truthy manifest) then throw (Error "Invalid manifest format.") else
  version ← lift (get manifest "version");
  if negb (is_number_1 version) then throw (Error "Invalid manifest format.") else
  operations ← lift (get manifest "operations");
  match operations with        (* Array.isArray(manifest.operations) *)
  | VArray operations =>
      '(incomingOperations, replacementSignatures) ←
        for_of operations
          (λ op '(incomingOperations, replacementSignatures),
             let incomingOperations := <[signature op := document op]> incomingOperations in
             let replacementSignatures := Set_add (signature op) replacementSignatures in
             a ← this;
             (if negb (Set_has (lastOperationSignatures a) (signature op)) then
                maybeLog ("Incoming manifest ADDs: " +:+ signature op);;
                emit (CacheSet (getCacheKey (signature op)) (document op))
              else mret tt);;
             mret (incomingOperations, replacementSignatures))
          ((∅ : gmap string string), ([] : SignatureStore));
      a ← this;
      for_of (lastOperationSignatures a)
        (λ signature _,
           if negb (Map_has incomingOperations signature) then
             maybeLog ("Incoming manifest REMOVEs: " +:+ signature);;
             emit (CacheDelete (getCacheKey signature))
           else mret tt)
        tt;;
      modify (set_lastOperationSignatures replacementSignatures)
  | _ => throw (Error "Invalid manifest format.")
  end.

(** [tryUpdate] from the statement after [response = await fetch(...)] to its
    end. *)
Definition tryUpdate_response (response : Response) : M bool :=
  if (status response =? 304)%Z then
    maybeLog "The published manifest was the same as the previous attempt.";;
    mret false
  else if negb (ok response) then
    throw (Error ("Could not fetch manifest " +:+ text response))
  else
    match headers_get response "content-type" with
    | Some contentType =>
        if negb (bool_decide (contentType = "")) &&
           negb (bool_decide (contentType = "application/json")) then
          throw (Error ("Unexpected 'Content-Type' header: " +:+ contentType))
        else mret tt
    | None => mret tt
    end;;
    manifest ← lift (json response);
    updateManifest manifest;;
    match headers_get response "etag" with
    | Some receivedETag =>
        if negb (bool_decide (receivedETag = "")) then
          etag ← lift (JSON_parse receivedETag);
          modify (set_lastSuccessfulETag (Some etag))
        else mret tt
    | None => mret tt
    end;;
    mret true.

(** [tryUpdate]; [fetch] is what the network answers to the request: a response,
    or a thrown error.  Nothing else runs on the agent between the request and the
    end of the method. *)
Definition tryUpdate (fetch : string → RequestInit → result Response) : M bool :=
  hashed ← getHashedServiceId;
  a ← this;
  let manifestUrl := getOperationManifestUrl hashed (schemaHash (options a)) in
  maybeLog ("Checking for manifest changes at " +:+ manifestUrl);;
  modify (λ a, set_timesChecked (_timesChecked a + 1) a);;
  a ← this;
  let fetchOptions :=
    mkRequestInit "GET" (get_pollSeconds a * 3 * 1000)
      match lastSuccessfulETag a with
      | Some etag => if truthy etag then [("If-None-Match", etag)] else []
      | None => []
      end in
  emit (Fetch manifestUrl fetchOptions);;
  match fetch manifestUrl fetchOptions with
  | Ok response => tryUpdate_response response
  | Throw err =>
      serviceID ← lift (get (engine (options a)) "serviceID");
      let ourErrorPrefix :=
        "Unable to fetch operation manifest for " +:+
        toString (schemaHash (options a)) +:+ " in '" +:+
        toString serviceID +:+ "': " +:+ error_toString err in
      throw (mkError (name err) (ourErrorPrefix +:+ ": " +:+ message err))
  end.

Definition resetRequestInFlight : M unit := modify (set_requestInFlight None).

(** The synchronous part of [checkForUpdate], up to its [return]. *)
Definition checkForUpdate_begin (now : Z) : M CheckReturn :=
  warnWhenLossOfSync now;;
  a ← this;
  match requestInFlight a with
  | Some p => mret (InFlight p)
  | None =>
      let promise := Ok tt in          (* Promise.resolve() *)
      modify (set_requestInFlight (Some promise));;
      mret NewCheck
  end.

(** The chain [promise.then(() => this.tryUpdate()).then(...).catch(...)], which
    runs once the caller has been handed it; [now] is the [new Date()] of the
    second handler. *)
Definition checkForUpdate_chain
    (fetch : string → RequestInit → result Response) (now : Z) : M value :=
  try_catch
    (result ← tryUpdate fetch;
     modify (set_lastSuccessfulCheck (Some now));;
     resetRequestInFlight;;
     mret (VBool result))
    (λ err, resetRequestInFlight;; throw err).

(** What the promise of an [async] function that returned the marker [p] settles
    to: [p] is a [Promise<void>]. *)
Definition adopt (p : result unit) : result value :=
  match p with
  | Ok _ => Ok VUndefined
  | Throw e => Throw e
  end.

(** What the promise a caller was handed settles to: the marker is awaited, the
    chain is run. *)
Definition checkForUpdate_settle
    (fetch : string → RequestInit → result Response) (now : Z)
    (r : CheckReturn) : M value :=
  match r with
  | InFlight p => lift (adopt p)
  | NewCheck => checkForUpdate_chain fetch now
  end.

(** A call of [checkForUpdate] followed to the settling of its promise, with
    nothing else run in between. *)
Definition checkForUpdate (now : Z)
    (fetch : string → RequestInit → result Response) (now' : Z) : M value :=
  r ← checkForUpdate_begin now;
  checkForUpdate_settle fetch now' r.

(** The settlement of the promise of [m], as a value. *)
Definition promise_of {A} (m : M A) : M (result A) := λ a,
  let '(a1, t1, r) := m a in (a1, t1, Ok r).

(** Two calls of [checkForUpdate], the second made after the synchronous part of
    the first and before its chain has run (both in one turn of the event loop, or
    the second while the fetch of the first is pending): what the promise of the
    first caller and the promise of the second caller settle to. *)
Definition overlapping_calls (now1 now2 : Z)
    (fetch : string → RequestInit → result Response) (now3 : Z) :
    M (result value * result value) :=
  r1 ← checkForUpdate_begin now1;
  r2 ← checkForUpdate_begin now2;
  first ← promise_of (checkForUpdate_settle fetch now3 r1);
  second ← promise_of (checkForUpdate_settle fetch now3 r2);
  mret (first, second).

(** [err.message || err], as the console prints it. *)
Definition message_or_error (err : error) : string :=
  if bool_decide (message err = "") then error_toString err else message err.

(** The statement [this.timer = this.timer || setInterval(...)]; [fresh] is the
    handle [setInterval] returns when it is called. *)
Definition start_timer (fresh : TimerId) : M unit :=
  a ← this;
  match timer a with
  | Some t => modify (set_timer (Some t))
  | None =>
      emit (SetInterval fresh (get_pollSeconds a * 1000));;
      modify (set_timer (Some fresh))
  end.

(** The first pulse of [start]: [try { await pulse(); } catch (err) { ... }]. *)
Definition start_first_pulse (now : Z)
    (fetch : string → RequestInit → result Response) (now' : Z) : M unit :=
  try_catch
    (checkForUpdate now fetch now';; mret tt)
    (λ err, emit (ConsoleError
       ["Apollo Server could not begin serving requests immediately because the operation manifest could not be fetched.  Attempts will continue to fetch the manifest, but all requests will be forbidden until the manifest is fetched.";
        message_or_error err])).

Definition start (now : Z) (fetch : string → RequestInit → result Response)
    (now' : Z) (fresh : TimerId) : M unit :=
  start_first_pulse now fetch now';;
  start_timer fresh.

(** One firing of the interval: [pulse().catch(err => console.error(...))]. *)
Definition tick (now : Z) (fetch : string → RequestInit → result Response)
    (now' : Z) : M unit :=
  try_catch
    (checkForUpdate now fetch now';; mret tt)
    (λ err, emit (ConsoleError [message_or_error err])).

Definition stop : M unit :=
  a ← this;
  match timer a with
  | Some t => emit (ClearInterval t)
  | None => mret tt
  end.

(** *** What [tryUpdate] computes before it calls [fetch] *)

Definition serviceID_of (a : Agent) : value :=
  match get (engine (options a)) "serviceID" with
  | Ok v => v
  | Throw _ => VUndefined
  end.

Definition hashed_of (a : Agent) : string :=
  match hashedServiceId a with
  | Some h => if bool_decide (h = "") then generateServiceIdHash (serviceID_of a) else h
  | None => generateServiceIdHash (serviceID_of a)
  end.

Definition manifestUrl_of (a : Agent) : string :=
  getOperationManifestUrl (hashed_of a) (schemaHash (options a)).

Definition fetchOptions_of (a : Agent) : RequestInit :=
  mkRequestInit "GET" (get_pollSeconds a * 3 * 1000)
    match lastSuccessfulETag a with
    | Some etag => if truthy etag then [("If-None-Match", etag)] else []
    | None => []
    end.

(** The fields once [tryUpdate] has issued its request: the hash is memoised and
    the diagnostic counter is one higher. *)
Definition checked (a : Agent) : Agent :=
  set_timesChecked (_timesChecked a + 1) (set_hashedServiceId (Some (hashed_of a)) a).

Definition request_trace (a : Agent) : list effect :=
  log_line a ("Checking for manifest changes at " +:+ manifestUrl_of a) ++
  [Fetch (manifestUrl_of a) (fetchOptions_of a)].

Definition fetch_error (a : Agent) (err : error) : error :=
  mkError (name err)
    (("Unable to fetch operation manifest for " +:+
      toString (schemaHash (options a)) +:+ " in '" +:+
      toString (serviceID_of a) +:+ "': " +:+ error_toString err) +:+ ": " +:+ message err).

End Agent.

(** * The reconciler of the earlier agent

    [updateManifest] of apollo-server-plugin-engine-operation-registry/src/agent.ts.
    It builds the whole [Map] of incoming operations first and then walks the map,
    where the later agent walks the manifest.  It reads and writes the same two
    fields, the stored signatures and the [debug] option, so it runs on the same
    state. *)

Module Engine.

(** [const cacheKey = (signature: string) => `apq:${signature}`] *)
Definition cacheKey (signature : string) : string := "apq:" +:+ signature.

(** A [Map<string, string>] with its entries in insertion order: [set] on a key
    that is present replaces the value where the entry stands, [set] on a new key
    adds the entry at the end. *)
Fixpoint Map_set (k v : string) (m : list (string * string)) : list (string * string) :=
  match m with
  | [] => [(k, v)]
  | (k', v') :: rest =>
      if bool_decide (k = k') then (k, v) :: rest else (k', v') :: Map_set k v rest
  end.

Definition Map_has (m : list (string * string)) (k : string) : bool :=
  bool_decide (k ∈ m.*1).

Definition updateManifest (manifest : value) : M unit :=
  if negb (truthy manifest) then throw (Error "Invalid manifest format.") else
  version ← lift (get manifest "version");
  if negb (is_number_1 version) then throw (Error "Invalid manifest format.") else
  operations ← lift (get manifest "operations");
  match operations with        (* Array.isArray(manifest.operations) *)
  | VArray operations =>
      incomingOperations ←
        for_of operations
          (λ operation incomingOperations,
             mret (Map_set (signature operation) (document operation) incomingOperations))
          ([] : list (string * string));
      replacementSignatures ←
        for_of incomingOperations
          (λ '(signature, document) replacementSignatures,
             let replacementSignatures := Set_add signature replacementSignatures in
             a ← this;
             (if negb (Set_has (lastOperationSignatures a) signature) then
                maybeLog ("Incoming manifest ADDs: " +:+ signature);;
                emit (CacheSet (cacheKey signature) document)
              else mret tt);;
             mret replacementSignatures)
          ([] : SignatureStore);
      a ← this;
      for_of (lastOperationSignatures a)
        (λ signature _,
           if negb (Map_has incomingOperations signature) then
             maybeLog ("Incoming manifest REMOVEs: " +:+ signature);;
             emit (CacheDelete (cacheKey signature))
           else mret tt)
        tt;;
      modify (set_lastOperationSignatures replacementSignatures)
  | _ => throw (Error "Invalid manifest format.")
  end.

(** What the first loop leaves in [incomingOperations]. *)
Definition entries_of (ops : list Operation) (m0 : list (string * string)) :
    list (string * string) :=
  foldl (λ m op, Map_set (signature op) (document op) m) m0 ops.

(** What the walk of the map issues. *)
Definition additions (a : Agent) (entries : list (string * string)) : list effect :=
  flat_map
    (λ '(s, d), if Set_has (lastOperationSignatures a) s then []
                else log_line a ("Incoming manifest ADDs: " +:+ s) ++
                     [CacheSet (cacheKey s) d])
    entries.

(** What the walk of the stored signatures issues. *)
Definition removals (a : Agent) (incoming : list (string * string))
    (known : list string) : list effect :=
  flat_map
    (λ s, if Map_has incoming s then []
          else log_line a ("Incoming manifest REMOVEs: " +:+ s) ++
               [CacheDelete (cacheKey s)])
    known.

End Engine.

(** The keys a trace sets, one for each call of [cache.set], in order. *)
Definition set_keys (t : list effect) : list string :=
  omap (λ e, match e with CacheSet k _ => Some k | _ => None end) t.

(** * The plugin that owns the agent *)

Section Plugin.

Context `{Platform}.


End Plugin.

(** * A platform to run the agent on concrete inputs *)

Definition dquote : Ascii.ascii := Ascii.ascii_of_nat 34.
Definition backslash : Ascii.ascii := Ascii.ascii_of_nat 92.

(** The text of a JSON string literal whose content is [s]: [s] between double
    quotes. *)
Definition quoted (s : string) : string :=
  String dquote (s +:+ String dquote EmptyString).

(** The content of a string literal, read from just after its opening quote: the
    characters up to the closing quote, which must end the text.  A backslash or a
    control character ends the reading without a result. *)
Fixpoint plain_literal_body (s : string) : option string :=
  match s with
  | EmptyString => None
  | String c rest =>
      if Ascii.eqb c dquote then
        if rest is EmptyString then Some EmptyString else None
      else if Ascii.eqb c backslash || (Ascii.nat_of_ascii c <? 32)%nat then None
      else String c <$> plain_literal_body rest
  end.

(** [JSON.parse] on the texts the examples use: a string literal without escape
    sequences decodes to its content; a text that does not begin with a double
    quote and is no JSON at all, such as a weak validator [W/...], is a
    [SyntaxError].  This stand-in decodes no other JSON value. *)
Definition JSON_parse_literal (s : string) : result value :=
  match s with
  | String c rest =>
      if Ascii.eqb c dquote then
        match plain_literal_body rest with
        | Some content => Ok (VString content)
        | None => Throw (mkError "SyntaxError" "Unexpected token in JSON")
        end
      else Throw (mkError "SyntaxError" "Unexpected token in JSON")
  | EmptyString => Throw (mkError "SyntaxError" "Unexpected end of JSON input")
  end.

Definition example_platform : Platform := {|
  getOperationManifestUrl h s := "https://registry.example/" +:+ h +:+ "/" +:+ toString s;
  generateServiceIdHash v := "sha512:" +:+ toString v;
  JSON_parse := JSON_parse_literal;
  Date_toString d := pretty d;
|}.

Definition example_options : AgentOptions :=
  mkAgentOptions None None (VString "schema-1")
    (VObject [("serviceID", VString "my-service")]).

Definition mkManifest (ops : list Operation) : value :=
  VObject [("version", VNumber 1); ("operations", VArray ops)].

Definition example_agent : Agent := new_fields example_options.

Definition in_flight_agent : Agent :=
  set_requestInFlight (Some (Ok tt)) example_agent.

Definition manifest_a : value := mkManifest [mkOperation "a" "docA"].
Definition manifest_b : value := mkManifest [mkOperation "b" "docB"].

Definition manifest_version_2 : value :=
  VObject [("version", VNumber 2); ("operations", VArray [mkOperation "a" "docA"])].

(** A 200 response with the manifest [manifest_a] and the header [etag: "v1"],
    the four characters with their quotes. *)
Definition response_ok : Response :=
  mkResponse 200
    {[ "content-type" := "application/json"; "etag" := quoted "v1" ]}
    EmptyString (Ok manifest_a).

Definition response_not_modified : Response :=
  mkResponse 304 ∅ EmptyString
    (Throw (mkError "FetchError" "invalid json response body")).

Definition network_answers (response : Response) :
    string → RequestInit → result Response :=
  λ _ _, Ok response.

Definition network_down : string → RequestInit → result Response :=
  λ _ _, Throw (mkError "FetchError" "request failed").

(** A 500 answer. *)
Definition response_server_error : Response :=
  mkResponse 500 ∅ "Internal Server Error"
    (Throw (mkError "FetchError" "invalid json response body")).

(** A 200 answer whose content type carries a charset. *)
Definition response_with_charset : Response :=
  mkResponse 200 {[ "content-type" := "application/json; charset=utf-8" ]}
    EmptyString (Ok manifest_a).


(** A 200 answer with a weak validator: [W/] before the quoted tag. *)
Definition weak_etag : string := "W/" +:+ quoted "v1".

Definition response_weak_etag : Response :=
  mkResponse 200 {[ "content-type" := "application/json"; "etag" := weak_etag ]}
    EmptyString (Ok manifest_a).

Definition response_without_etag : Response :=
  mkResponse 200 {[ "content-type" := "application/json" ]}
    EmptyString (Ok manifest_a).

(** A manifest that names the signature ["a"] twice, with two documents. *)
Definition manifest_a_twice : value :=
  mkManifest [mkOperation "a" "first"; mkOperation "a" "second"].

(** The agent once it has applied [manifest_a]. *)
Definition agent_with_a : Agent := state_of (updateManifest manifest_a example_agent).

Definition null_engine_options : AgentOptions :=
  mkAgentOptions None None (VString "schema-1") VNull.


(** Options with an engine whose service identifier is the empty string. *)
Definition empty_serviceID_options : AgentOptions :=
  mkAgentOptions None None (VString "schema-1")
    (VObject [("serviceID", VString EmptyString)]).

Definition no_engine_options : AgentOptions :=
  mkAgentOptions None None (VString "schema-1") VUndefined.

(** * Reading a run *)

Definition is_cache_call (e : effect) : bool :=
  match e with
  | CacheSet _ _ | CacheDelete _ => true
  | _ => false
  end.

Definition is_fetch (e : effect) : bool :=
  match e with
  | Fetch _ _ => true
  | _ => false
  end.

Definition is_setInterval (e : effect) : bool :=
  match e with
  | SetInterval _ _ => true
  | _ => false
  end.

(** The calls on the cache, the requests and the timers armed in a trace. *)
Definition cache_calls (t : list effect) : list effect := filter is_cache_call t.
Definition fetches (t : list effect) : list effect := filter is_fetch t.
Definition timers_armed (t : list effect) : list effect := filter is_setInterval t.

(** The keys written and not deleted since, after the calls of a trace. *)
Definition live_step (live : gset string) (e : effect) : gset string :=
  match e with
  | CacheSet k _ => live ∪ {[k]}
  | CacheDelete k => live ∖ {[k]}
  | _ => live
  end.

Definition live_keys_from (live : gset string) (t : list effect) : gset string :=
  foldl live_step live t.

Definition live_keys (t : list effect) : gset string := live_keys_from ∅ t.

(** The store behind the [KeyValueCache], when it applies the calls in the order
    they are issued. *)
Definition cache_step (c : gmap string string) (e : effect) : gmap string string :=
  match e with
  | CacheSet k v => <[k := v]> c
  | CacheDelete k => delete k c
  | _ => c
  end.

Definition cache_after (t : list effect) (c : gmap string string) :
    gmap string string :=
  foldl cache_step c t.

(** The timers armed and not cleared since. *)
Definition timer_step (on : gset TimerId) (e : effect) : gset TimerId :=
  match e with
  | SetInterval id _ => on ∪ {[id]}
  | ClearInterval id => on ∖ {[id]}
  | _ => on
  end.

Definition active_timers (t : list effect) : gset TimerId := foldl timer_step ∅ t.

Definition signatures (ops : list Operation) : list string := signature <$> ops.

(** A value that passes the shape guard of [updateManifest], with [ops] as its
    operations. *)
Definition valid_manifest (m : value) (ops : list Operation) : Prop :=
  truthy m = true ∧ get m "version" = Ok (VNumber 1) ∧
  get m "operations" = Ok (VArray ops).

(** An agent whose options pass the checks of the constructor. *)
Definition constructed (a : Agent) : Prop := outcome_of (constructor a) = Ok tt.

(** What the first loop of [updateManifest] issues, and what the second does. *)
Definition additions (a : Agent) (ops : list Operation) : list effect :=
  flat_map
    (λ op, if Set_has (lastOperationSignatures a) (signature op) then []
           else log_line a ("Incoming manifest ADDs: " +:+ signature op) ++
                [CacheSet (getCacheKey (signature op)) (document op)])
    ops.

Definition removals (a : Agent) (incoming : gmap string string)
    (known : list string) : list effect :=
  flat_map
    (λ s, if Map_has incoming s then []
          else log_line a ("Incoming manifest REMOVEs: " +:+ s) ++
               [CacheDelete (getCacheKey s)])
    known.

(** What the first loop leaves in [incomingOperations] and in
    [replacementSignatures]. *)
Definition incoming_of (ops : list Operation) (m0 : gmap string string) :
    gmap string string :=
  foldl (λ m op, <[signature op := document op]> m) m0 ops.

Definition replacement_of (ops : list Operation) (s0 : SignatureStore) :
    SignatureStore :=
  foldl (λ s op, Set_add (signature op) s) s0 ops.


(** The keys of a list of signatures. *)
Definition keys_of (sigs : list string) : gset string :=
  list_to_set (getCacheKey <$> sigs).

(** [m] keeps the reading [f] of the fields and issues no effect of the class
    [P]. *)
Definition frame {A F} (f : Agent → F) (P : effect → bool) (m : M A) : Prop :=
  ∀ a, f (state_of (m a)) = f a ∧ filter P (trace_of (m a)) = [].

Definition is_timer_effect (e : effect) : bool :=
  match e with
  | SetInterval _ _ | ClearInterval _ => true
  | _ => false
  end.

(** What can happen to an agent, one uninterrupted piece at a time: the
    synchronous part of a [checkForUpdate], the chain of a check, the statement of
    [start] that arms the timer, a whole [start], a firing of the interval, a
    [stop], a direct [updateManifest].  A [start] that overlaps another call is the
    sequence of its pieces, with pieces of the other call in between. *)
Inductive step :=
| DoBegin (now : Z)
| DoChain (fetch : string → RequestInit → result Response) (now : Z)
| DoStartTimer (fresh : TimerId)
| DoStart (now : Z) (fetch : string → RequestInit → result Response) (now' : Z)
    (fresh : TimerId)
| DoTick (now : Z) (fetch : string → RequestInit → result Response) (now' : Z)
| DoStop
| DoUpdateManifest (manifest : value).

Definition drop_outcome {A} (x : Agent * list effect * result A) : Agent * list effect :=
  (state_of x, trace_of x).

Definition run_step `{Platform} (s : step) (a : Agent) : Agent * list effect :=
  match s with
  | DoBegin now => drop_outcome (checkForUpdate_begin now a)
  | DoChain fetch now => drop_outcome (checkForUpdate_chain fetch now a)
  | DoStartTimer fresh => drop_outcome (start_timer fresh a)
  | DoStart now fetch now' fresh => drop_outcome (start now fetch now' fresh a)
  | DoTick now fetch now' => drop_outcome (tick now fetch now' a)
  | DoStop => drop_outcome (stop a)
  | DoUpdateManifest manifest => drop_outcome (updateManifest manifest a)
  end.

Fixpoint run_steps `{Platform} (ss : list step) (a : Agent) : Agent * list effect :=
  match ss with
  | [] => (a, [])
  | s :: rest =>
      let '(a1, t1) := run_step s a in
      let '(a2, t2) := run_steps rest a1 in
      (a2, t1 ++ t2)
  end.

(** Either no timer was ever armed, or the one in the [timer] field is the only
    one armed, and the only one that can still be active. *)
Definition one_timer (a : Agent) (t : list effect) : Prop :=
  (timer a = None ∧ timers_armed t = [] ∧ active_timers t = ∅) ∨
  (∃ id ms, timer a = Some id ∧ timers_armed t = [SetInterval id ms] ∧
            active_timers t ⊆ {[id]}).

(** The [Content-Type] test of [tryUpdate] passes: no such header, an empty one,
    or exactly [application/json]. *)
Definition content_type_ok (response : Response) : bool :=
  match headers_get response "content-type" with
  | Some contentType =>
      bool_decide (contentType = "") || bool_decide (contentType = "application/json")
  | None => true
  end.

(** The first argument of the [console.error] of [start]. *)
Definition start_banner : string :=
  "Apollo Server could not begin serving requests immediately because the operation manifest could not be fetched.  Attempts will continue to fetch the manifest, but all requests will be forbidden until the manifest is fetched.".

(** A relation between the fields before a piece of a method, the effects it
    issues and the fields after it, that holds of doing nothing and of doing one
    piece after another. *)
Class Composable (R : Agent → list effect → Agent → Prop) := {
  composable_nil : ∀ a, R a [] a;
  composable_app : ∀ a t1 b t2 c, R a t1 b → R b t2 c → R a (t1 ++ t2) c;
}.

(** Every run of [m] is in [R], whether it returns or throws. *)
Definition respects {A} (R : Agent → list effect → Agent → Prop) (m : M A) : Prop :=
  ∀ a, R a (trace_of (m a)) (state_of (m a)).

(** The relations kept along a run: the options stay the same; with the debug
    option off nothing is printed with [console.debug]; every call on the cache is
    on a key that [getCacheKey] makes; every request goes to the URL computed from
    the first state; the diagnostic counter rises by the number of requests. *)
Definition keeps_options : Agent → list effect → Agent → Prop :=
  λ a _ b, options b = options a.

Definition is_debug (e : effect) : bool :=
  match e with
  | ConsoleDebug _ => true
  | _ => false
  end.

Definition quiet_unless_debug : Agent → list effect → Agent → Prop :=
  λ a t b, options b = options a ∧
           (debug (options a) ≠ Some true → filter is_debug t = []).

Definition namespaced_call (e : effect) : Prop :=
  match e with
  | CacheSet k _ | CacheDelete k => ∃ s, k = getCacheKey s
  | _ => True
  end.

Definition only_namespaced : Agent → list effect → Agent → Prop :=
  λ _ t _, Forall namespaced_call t.

Definition same_url `{Platform} : Agent → list effect → Agent → Prop :=
  λ a t b, constructed a →
           options b = options a ∧ hashed_of b = hashed_of a ∧
           Forall (λ e, ∀ url init, e = Fetch url init → url = manifestUrl_of a) t.

Definition counts_requests : Agent → list effect → Agent → Prop :=
  λ a t b, constructed a →
           options b = options a ∧
           _timesChecked b = _timesChecked a + Z.of_nat (length (fetches t)).

(** * Properties *)

(** ** The monad on the methods' building blocks *)

Lemma maybeLog_run msg a : maybeLog msg a = (a, log_line a msg, Ok tt).
Proof.
  unfold maybeLog, log_line, mbind, M_bind, bind, this; simpl.
  destruct (debug (options a)) as [[|]|]; reflexivity.
Qed.

Lemma bind_run {A B} (m : M A) (k : A → M B) a :
  (m ≫= k) a =
  match m a with
  | (a1, t1, Ok x) => let '(a2, t2, r) := k x a1 in (a2, t1 ++ t2, r)
  | (a1, t1, Throw e) => (a1, t1, Throw e)
  end.
Proof. reflexivity. Qed.

Lemma bind_ok {A B} (m : M A) (k : A → M B) a a1 t1 x :
  m a = (a1, t1, Ok x) →
  (m ≫= k) a = (state_of (k x a1), t1 ++ trace_of (k x a1), outcome_of (k x a1)).
Proof.
  intros Hm. rewrite bind_run, Hm. destruct (k x a1) as [[a2 t2] r]. reflexivity.
Qed.

Lemma bind_throw {A B} (m : M A) (k : A → M B) a a1 t1 e :
  m a = (a1, t1, Throw e) → (m ≫= k) a = (a1, t1, Throw e).
Proof. intros Hm. rewrite bind_run, Hm. reflexivity. Qed.

(** Runs the monad's operations where they are applied to a state. *)
Ltac run_monad :=
  unfold mbind, M_bind, bind, modify, mret, M_ret, ret, throw, lift, this, emit;
  cbn.

Lemma run_eta {A} (x : Agent * list effect * result A) :
  x = (state_of x, trace_of x, outcome_of x).
Proof. destruct x as [[a t] r]. reflexivity. Qed.

(** ** The reconciler's two loops *)

Lemma add_loop_run ops : ∀ inc rep a,
  for_of ops
    (λ op '(incomingOperations, replacementSignatures),
       let incomingOperations := <[signature op := document op]> incomingOperations in
       let replacementSignatures := Set_add (signature op) replacementSignatures in
       a ← this;
       (if negb (Set_has (lastOperationSignatures a) (signature op)) then
          maybeLog ("Incoming manifest ADDs: " +:+ signature op);;
          emit (CacheSet (getCacheKey (signature op)) (document op))
        else mret tt);;
       mret (incomingOperations, replacementSignatures))
    (inc, rep) a
  = (a, additions a ops, Ok (incoming_of ops inc, replacement_of ops rep)).
Proof.
  induction ops as [|op ops IH]; intros inc rep a; [reflexivity|].
  cbn [for_of]. rewrite bind_run.
  cbn beta iota zeta. rewrite bind_run. cbn [this]. cbn beta iota zeta.
  rewrite bind_run.
  destruct (Set_has (lastOperationSignatures a) (signature op)) eqn:Hhas; cbn [negb].
  - cbn. rewrite IH. cbn. rewrite Hhas. reflexivity.
  - rewrite bind_run, maybeLog_run. cbn [emit].
    cbn beta iota zeta. cbn [mret M_ret ret].
    rewrite IH. cbn [additions flat_map]. rewrite Hhas.
    cbn. rewrite !app_nil_r, <- !app_assoc. reflexivity.
Qed.

Lemma remove_loop_run (inc : gmap string string) known : ∀ a,
  for_of known
    (λ signature (_ : unit),
       if negb (Map_has inc signature) then
         maybeLog ("Incoming manifest REMOVEs: " +:+ signature);;
         emit (CacheDelete (getCacheKey signature))
       else mret tt)
    tt a
  = (a, removals a inc known, Ok tt).
Proof.
  induction known as [|s known IH]; intros a; [reflexivity|].
  cbn [for_of]. rewrite bind_run.
  destruct (Map_has inc s) eqn:Hhas; cbn [negb].
  - cbn. rewrite IH. cbn. rewrite Hhas. reflexivity.
  - rewrite bind_run, maybeLog_run. cbn [emit]. cbn beta iota zeta.
    rewrite IH. cbn [removals flat_map]. rewrite Hhas. reflexivity.
Qed.

Lemma is_number_1_spec v : is_number_1 v = true ↔ v = VNumber 1.
Proof.
  destruct v; cbn; try (split; [discriminate | intros; discriminate]).
  rewrite Z.eqb_eq. split; [intros ->; reflexivity | intros [= ->]; reflexivity].
Qed.

(** On a manifest of valid shape the reconciler issues the additions, then the
    removals, and stores the incoming signatures. *)
Lemma updateManifest_valid m ops a :
  valid_manifest m ops →
  updateManifest m a =
    (set_lastOperationSignatures (replacement_of ops []) a,
     additions a ops ++ removals a (incoming_of ops ∅) (lastOperationSignatures a),
     Ok tt).
Proof.
  intros (Ht & Hv & Ho). unfold updateManifest. rewrite Ht. cbn [negb].
  rewrite bind_run. unfold lift at 1. rewrite Hv. cbn beta iota zeta. cbn [is_number_1 Z.eqb Pos.eqb negb].
  rewrite bind_run. unfold lift at 1. rewrite Ho. cbn beta iota zeta.
  rewrite bind_run, add_loop_run. cbn beta iota zeta.
  rewrite bind_run. cbn [this]. cbn beta iota zeta.
  rewrite bind_run, remove_loop_run. cbn beta iota zeta. cbn [modify].
  rewrite !app_nil_l, !app_nil_r. reflexivity.
Qed.

Lemma getCacheKey_inj s s' : getCacheKey s = getCacheKey s' → s = s'.
Proof.
  unfold getCacheKey. intros H.
  cbv [String.app String.rev_app String.rev] in H.
  congruence.
Qed.

Lemma elem_of_replacement_of ops : ∀ s0 x,
  x ∈ replacement_of ops s0 ↔ x ∈ s0 ∨ x ∈ signatures ops.
Proof.
  induction ops as [|op ops IH]; intros s0 x; cbn.
  - rewrite elem_of_nil. tauto.
  - unfold replacement_of in IH. rewrite IH. unfold Set_add, Set_has.
    rewrite elem_of_cons. case_bool_decide as Hin.
    + split; [tauto|]. intros [?|[ ->|?]]; auto.
    + rewrite elem_of_app, list_elem_of_singleton. tauto.
Qed.

Lemma NoDup_replacement_of ops : ∀ s0, NoDup s0 → NoDup (replacement_of ops s0).
Proof.
  induction ops as [|op ops IH]; intros s0 Hs0; [exact Hs0|].
  cbn. apply IH. unfold Set_add, Set_has. case_bool_decide as Hin; [exact Hs0|].
  apply NoDup_app. split; [exact Hs0|]. split; [|apply NoDup_singleton].
  intros y Hy ->%list_elem_of_singleton. contradiction.
Qed.

Lemma Map_has_incoming_of ops : ∀ (m0 : gmap string string) s,
  Map_has (incoming_of ops m0) s = true ↔ is_Some (m0 !! s) ∨ s ∈ signatures ops.
Proof.
  induction ops as [|op ops IH]; intros m0 s; cbn.
  - unfold Map_has. rewrite bool_decide_eq_true, elem_of_nil. tauto.
  - unfold incoming_of in IH. rewrite IH, elem_of_cons.
    destruct (decide (signature op = s)) as [->|Hne].
    + rewrite lookup_insert_eq. split; [auto|]. intros _. left. eauto.
    + rewrite lookup_insert_ne by exact Hne. split; [tauto|].
      intros [?|[ ->|?]]; tauto.
Qed.

Lemma Map_has_incoming s ops :
  Map_has (incoming_of ops ∅) s = true ↔ s ∈ signatures ops.
Proof.
  rewrite Map_has_incoming_of, lookup_empty. split; [|auto].
  intros [[? [=]]|?]; assumption.
Qed.

Lemma live_keys_from_app L t1 t2 :
  live_keys_from L (t1 ++ t2) = live_keys_from (live_keys_from L t1) t2.
Proof. unfold live_keys_from. apply foldl_app. Qed.

Lemma live_keys_from_log L a msg : live_keys_from L (log_line a msg) = L.
Proof. unfold log_line. destruct (debug (options a)) as [[|]|]; reflexivity. Qed.

Lemma live_additions a ops : ∀ L k,
  k ∈ live_keys_from L (additions a ops) ↔
  k ∈ L ∨ ∃ s, k = getCacheKey s ∧ s ∈ signatures ops ∧ s ∉ lastOperationSignatures a.
Proof.
  induction ops as [|op ops IH]; intros L k.
  - cbn. split; [auto|]. intros [?|(s & _ & Hnil%elem_of_nil & _)]; [assumption|destruct Hnil].
  - change (additions a (op :: ops)) with
      ((if Set_has (lastOperationSignatures a) (signature op) then []
        else log_line a ("Incoming manifest ADDs: " +:+ signature op) ++
             [CacheSet (getCacheKey (signature op)) (document op)]) ++ additions a ops).
    rewrite live_keys_from_app, IH. unfold Set_has. cbn [signatures fmap list_fmap].
    case_bool_decide as Hin.
    + cbn. split.
      * intros [?|(s & ? & ? & ?)]; [auto|]. right. exists s. rewrite elem_of_cons. auto.
      * intros [?|(s & ? & [ ->|?]%elem_of_cons & ?)]; [auto|contradiction|].
        right. exists s. auto.
    + rewrite live_keys_from_app, live_keys_from_log. cbn.
      rewrite elem_of_union, elem_of_singleton. split.
      * intros [[?| ->]|(s & ? & ? & ?)]; [auto| |].
        -- right. exists (signature op). rewrite elem_of_cons. auto.
        -- right. exists s. rewrite elem_of_cons. auto.
      * intros [?|(s & -> & [ ->|?]%elem_of_cons & ?)]; [auto|auto|].
        right. exists s. auto.
Qed.

Lemma live_removals a inc known : ∀ L k,
  k ∈ live_keys_from L (removals a inc known) ↔
  k ∈ L ∧ ¬ ∃ s, k = getCacheKey s ∧ s ∈ known ∧ Map_has inc s = false.
Proof.
  induction known as [|s0 known IH]; intros L k.
  - cbn. split; [|tauto]. intros ?. split; [assumption|].
    intros (s & _ & Hnil%elem_of_nil & _). destruct Hnil.
  - change (removals a inc (s0 :: known)) with
      ((if Map_has inc s0 then []
        else log_line a ("Incoming manifest REMOVEs: " +:+ s0) ++
             [CacheDelete (getCacheKey s0)]) ++ removals a inc known).
    rewrite live_keys_from_app, IH. destruct (Map_has inc s0) eqn:Hhas.
    + cbn. split.
      * intros [? Hn]. split; [assumption|].
        intros (s & ? & [ ->|?]%elem_of_cons & ?); [congruence|]. apply Hn. eauto.
      * intros [? Hn]. split; [assumption|].
        intros (s & ? & ? & ?). apply Hn. exists s. rewrite elem_of_cons. auto.
    + rewrite live_keys_from_app, live_keys_from_log. cbn.
      rewrite elem_of_difference, elem_of_singleton. split.
      * intros [[? Hk] Hn]. split; [assumption|].
        intros (s & ? & [ ->|?]%elem_of_cons & ?); [contradiction|]. apply Hn. eauto.
      * intros [? Hn]. split; [split; [assumption|]|].
        -- intros ->. apply Hn. exists s0. rewrite elem_of_cons. auto.
        -- intros (s & ? & ? & ?). apply Hn. exists s. rewrite elem_of_cons. auto.
Qed.

Lemma elem_of_keys_of k sigs : k ∈ keys_of sigs ↔ ∃ s, k = getCacheKey s ∧ s ∈ sigs.
Proof. unfold keys_of. rewrite elem_of_list_to_set, list_elem_of_fmap. reflexivity. Qed.

(** One reconciliation keeps the live keys equal to the keys of the stored
    signatures. *)
Lemma live_keys_updateManifest m ops a L :
  valid_manifest m ops →
  L = keys_of (lastOperationSignatures a) →
  live_keys_from L (trace_of (updateManifest m a)) = keys_of (signatures ops).
Proof.
  intros Hm ->. rewrite (updateManifest_valid m ops a Hm). cbn [trace_of fst snd].
  apply set_eq. intros k.
  rewrite live_keys_from_app, live_removals, live_additions, !elem_of_keys_of.
  split.
  - intros [[(s & -> & Hs)|(s & -> & Hs & _)] Hn]; [|eauto].
    destruct (decide (s ∈ signatures ops)) as [?|Hnot]; [eauto|].
    exfalso. apply Hn. exists s. split; [reflexivity|]. split; [assumption|].
    destruct (Map_has (incoming_of ops ∅) s) eqn:E; [|reflexivity].
    apply Map_has_incoming in E. contradiction.
  - intros (s & -> & Hs). split.
    + destruct (decide (s ∈ lastOperationSignatures a)); [left|right]; eauto.
    + intros (s' & ->%getCacheKey_inj & _ & Hhas).
      apply Map_has_incoming in Hs. congruence.
Qed.

Lemma dom_cache_after t : ∀ c : gmap string string,
  dom (cache_after t c) = live_keys_from (dom c) t.
Proof.
  induction t as [|e t IH]; intros c; [reflexivity|].
  cbn [cache_after live_keys_from foldl]. unfold cache_after, live_keys_from in IH.
  rewrite IH. f_equal. destruct e; cbn; try reflexivity.
  - rewrite dom_insert_L. apply union_comm_L.
  - apply dom_delete_L.
Qed.

(** On a store that holds exactly the keys of the stored signatures, one
    reconciliation leaves exactly the keys of the incoming ones. *)
Lemma dom_cache_updateManifest m ops a (c : gmap string string) :
  valid_manifest m ops →
  dom c = keys_of (lastOperationSignatures a) →
  dom (cache_after (trace_of (updateManifest m a)) c) = keys_of (signatures ops).
Proof.
  intros Hm Hc. rewrite dom_cache_after.
  apply (live_keys_updateManifest m ops a _ Hm Hc).
Qed.

Lemma known_updateManifest m ops a s :
  valid_manifest m ops →
  s ∈ lastOperationSignatures (state_of (updateManifest m a)) ↔ s ∈ signatures ops.
Proof.
  intros Hm. rewrite (updateManifest_valid m ops a Hm). cbn.
  rewrite elem_of_replacement_of, elem_of_nil. tauto.
Qed.

Lemma cache_calls_app t1 t2 : cache_calls (t1 ++ t2) = cache_calls t1 ++ cache_calls t2.
Proof. apply filter_app. Qed.

Lemma cache_calls_log a msg : cache_calls (log_line a msg) = [].
Proof. unfold log_line. destruct (debug (options a)) as [[|]|]; reflexivity. Qed.

Lemma cache_calls_additions a ops :
  cache_calls (additions a ops) =
  (λ op, CacheSet (getCacheKey (signature op)) (document op)) <$>
    filter (λ op, signature op ∉ lastOperationSignatures a) ops.
Proof.
  induction ops as [|op ops IH]; [reflexivity|].
  change (additions a (op :: ops)) with
    ((if Set_has (lastOperationSignatures a) (signature op) then []
      else log_line a ("Incoming manifest ADDs: " +:+ signature op) ++
           [CacheSet (getCacheKey (signature op)) (document op)]) ++ additions a ops).
  rewrite cache_calls_app, IH, filter_cons. unfold Set_has.
  case_bool_decide as Hin.
  - rewrite decide_False by tauto. reflexivity.
  - rewrite decide_True by assumption.
    rewrite cache_calls_app, cache_calls_log. reflexivity.
Qed.

Lemma cache_calls_removals a inc known :
  cache_calls (removals a inc known) =
  (λ s, CacheDelete (getCacheKey s)) <$> filter (λ s, Map_has inc s = false) known.
Proof.
  induction known as [|s known IH]; [reflexivity|].
  change (removals a inc (s :: known)) with
    ((if Map_has inc s then []
      else log_line a ("Incoming manifest REMOVEs: " +:+ s) ++
           [CacheDelete (getCacheKey s)]) ++ removals a inc known).
  rewrite cache_calls_app, IH, filter_cons.
  destruct (Map_has inc s) eqn:Hhas.
  - rewrite decide_False by discriminate. reflexivity.
  - rewrite decide_True by reflexivity.
    rewrite cache_calls_app, cache_calls_log. reflexivity.
Qed.

Lemma elem_of_cache_calls e t : e ∈ cache_calls t ↔ e ∈ t ∧ is_cache_call e = true.
Proof.
  unfold cache_calls. rewrite list_elem_of_filter.
  destruct (is_cache_call e); cbn; intuition congruence.
Qed.

(** The calls on the cache of one reconciliation: a [set] for each incoming
    operation whose signature is not stored, then a [delete] for each stored
    signature that is not incoming. *)
Lemma cache_calls_updateManifest m ops a :
  valid_manifest m ops →
  cache_calls (trace_of (updateManifest m a)) =
    ((λ op, CacheSet (getCacheKey (signature op)) (document op)) <$>
       filter (λ op, signature op ∉ lastOperationSignatures a) ops) ++
    ((λ s, CacheDelete (getCacheKey s)) <$>
       filter (λ s, s ∉ signatures ops) (lastOperationSignatures a)).
Proof.
  intros Hm. rewrite (updateManifest_valid m ops a Hm). cbn [trace_of fst snd].
  rewrite cache_calls_app, cache_calls_additions, cache_calls_removals.
  f_equal. f_equal. apply list_filter_iff. intros s.
  rewrite <- Map_has_incoming. destruct (Map_has (incoming_of ops ∅) s); intuition congruence.
Qed.

(** Every value is a manifest of valid shape or is refused without a trace. *)
Lemma updateManifest_cases m a :
  (∃ ops, valid_manifest m ops) ∨
  updateManifest m a = (a, [], Throw (Error "Invalid manifest format.")).
Proof.
  unfold valid_manifest, updateManifest.
  destruct (truthy m) eqn:Ht; [|right; reflexivity]. cbn [negb].
  assert (Hget : ∀ k, ∃ v, get m k = Ok v).
  { intros k. destruct m; cbn in Ht |- *; try discriminate; eauto. }
  destruct (Hget "version") as [version Hv], (Hget "operations") as [operations Ho].
  rewrite bind_run. unfold lift at 1. rewrite Hv. cbn beta iota zeta.
  destruct (is_number_1 version) eqn:H1; [|right; reflexivity]. cbn [negb].
  apply is_number_1_spec in H1. subst version.
  rewrite bind_run. unfold lift at 1. rewrite Ho. cbn beta iota zeta.
  destruct operations; try (right; reflexivity). left. eauto.
Qed.

(** The hypothesis of C1 on the agent's earlier calls is an invariant: every
    [updateManifest], on any value, keeps the live keys equal to the keys of the
    stored signatures. *)
Lemma live_keys_invariant m a h :
  live_keys h = keys_of (lastOperationSignatures a) →
  live_keys (h ++ trace_of (updateManifest m a)) =
    keys_of (lastOperationSignatures (state_of (updateManifest m a))).
Proof.
  intros Hh. destruct (updateManifest_cases m a) as [[ops Hm]| ->].
  - unfold live_keys. rewrite live_keys_from_app. fold (live_keys h).
    rewrite (live_keys_updateManifest m ops a _ Hm Hh).
    apply set_eq. intros k. rewrite !elem_of_keys_of.
    split; intros (s & -> & Hs); exists s; (split; [reflexivity|]);
      apply (known_updateManifest m ops a s Hm); exact Hs.
  - cbn [trace_of state_of fst snd]. rewrite app_nil_r. exact Hh.
Qed.

(** C1.  Two valid manifests applied in sequence, by an agent whose earlier calls
    on the cache left live exactly the keys of its stored signatures (as is the case
    for a new agent, which has made no call and stores none): both calls return;
    the keys written and not deleted since are exactly ["apq:" + s] for the
    signatures [s] of the second manifest; the second call sets the key of every
    incoming operation whose signature is not stored, deletes the key of every
    stored signature that is not incoming, and calls the cache on nothing else; and
    the stored signatures afterwards are those of the second manifest. *)
Theorem updateManifest_reconciles_cache
    (a : Agent) (h : list effect) (m1 m2 : value) (ops1 ops2 : list Operation) :
  valid_manifest m1 ops1 →
  valid_manifest m2 ops2 →
  live_keys h = keys_of (lastOperationSignatures a) →
  let r1 := updateManifest m1 a in
  let known := lastOperationSignatures (state_of r1) in
  let r2 := updateManifest m2 (state_of r1) in
  outcome_of r1 = Ok tt ∧ outcome_of r2 = Ok tt ∧
  live_keys (h ++ trace_of r1 ++ trace_of r2) = keys_of (signatures ops2) ∧
  (∀ k, k ∈ live_keys (h ++ trace_of r1 ++ trace_of r2) ↔
        ∃ s, k = "apq:" +:+ s ∧ s ∈ signatures ops2) ∧
  (∀ op, op ∈ ops2 → signature op ∉ known →
         CacheSet (getCacheKey (signature op)) (document op) ∈ trace_of r2) ∧
  (∀ s, s ∈ known → s ∉ signatures ops2 →
        CacheDelete (getCacheKey s) ∈ trace_of r2) ∧
  (∀ e, e ∈ cache_calls (trace_of r2) →
        (∃ op, op ∈ ops2 ∧ (signature op ∉ known) ∧
               e = CacheSet (getCacheKey (signature op)) (document op)) ∨
        (∃ s, s ∈ known ∧ (s ∉ signatures ops2) ∧ e = CacheDelete (getCacheKey s))) ∧
  (∀ s, s ∈ known ↔ s ∈ signatures ops1) ∧
  (∀ s, s ∈ lastOperationSignatures (state_of r2) ↔ s ∈ signatures ops2).
Proof.
  intros Hm1 Hm2 Hh r1 known r2.
  assert (Hlive : live_keys (h ++ trace_of r1 ++ trace_of r2) = keys_of (signatures ops2)).
  { unfold live_keys. rewrite !live_keys_from_app. fold (live_keys h).
    subst r2. apply (live_keys_updateManifest m2 ops2); [exact Hm2|].
    subst r1. rewrite (live_keys_updateManifest m1 ops1 a _ Hm1 Hh).
    apply set_eq. intros k. rewrite !elem_of_keys_of.
    split; intros (s & -> & Hs); exists s; (split; [reflexivity|]);
      apply (known_updateManifest m1 ops1 a s Hm1); exact Hs. }
  assert (Hcalls := cache_calls_updateManifest m2 ops2 (state_of r1) Hm2).
  fold r2 in Hcalls. fold known in Hcalls.
  split; [subst r1; rewrite (updateManifest_valid m1 ops1 a Hm1); reflexivity|].
  split; [subst r2; rewrite (updateManifest_valid m2 ops2 _ Hm2); reflexivity|].
  split; [exact Hlive|].
  split; [intros k; rewrite Hlive; apply elem_of_keys_of|].
  split; [|split; [|split; [|split]]].
  - intros op Hop Hnew.
    assert (He : CacheSet (getCacheKey (signature op)) (document op)
                   ∈ cache_calls (trace_of r2)).
    { rewrite Hcalls, elem_of_app. left. apply list_elem_of_fmap.
      exists op. split; [reflexivity|]. apply list_elem_of_filter. auto. }
    apply elem_of_cache_calls in He. tauto.
  - intros s Hs Hgone.
    assert (He : CacheDelete (getCacheKey s) ∈ cache_calls (trace_of r2)).
    { rewrite Hcalls, elem_of_app. right. apply list_elem_of_fmap.
      exists s. split; [reflexivity|]. apply list_elem_of_filter. auto. }
    apply elem_of_cache_calls in He. tauto.
  - intros e. rewrite Hcalls, elem_of_app, !list_elem_of_fmap.
    intros [(op & -> & [? ?]%list_elem_of_filter)|(s & -> & [? ?]%list_elem_of_filter)].
    + left. exists op. auto.
    + right. exists s. auto.
  - intros s. apply (known_updateManifest m1 ops1 a s Hm1).
  - intros s. apply (known_updateManifest m2 ops2 _ s Hm2).
Qed.

Lemma filter_none {A} (P : A → Prop) `{∀ x, Decision (P x)} (l : list A) :
  (∀ x, x ∈ l → ¬ P x) → filter P l = [].
Proof.
  induction l as [|x l IH]; intros Hl; [reflexivity|].
  rewrite filter_cons, decide_False by (apply Hl; left).
  apply IH. intros y Hy. apply Hl. right. exact Hy.
Qed.

(** C2.  A valid manifest applied twice in a row makes no call on the cache the
    second time, and neither does any manifest with the same signatures, whatever
    its documents; in general a signature that is both stored and incoming has its
    key neither set nor deleted, whatever document the manifest gives it. *)
Theorem updateManifest_skips_known_signatures
    (a : Agent) (m m' : value) (ops ops' : list Operation) :
  valid_manifest m ops →
  valid_manifest m' ops' →
  let a1 := state_of (updateManifest m a) in
  cache_calls (trace_of (updateManifest m a1)) = [] ∧
  ((∀ s, s ∈ signatures ops' ↔ s ∈ signatures ops) →
   cache_calls (trace_of (updateManifest m' a1)) = []) ∧
  (∀ s e, s ∈ lastOperationSignatures a → s ∈ signatures ops' →
          e ∈ trace_of (updateManifest m' a) →
          (∀ d, e ≠ CacheSet (getCacheKey s) d) ∧ e ≠ CacheDelete (getCacheKey s)).
Proof.
  intros Hm Hm' a1.
  assert (Hsame : ∀ m2 ops2, valid_manifest m2 ops2 →
            (∀ s, s ∈ signatures ops2 ↔ s ∈ signatures ops) →
            cache_calls (trace_of (updateManifest m2 a1)) = []).
  { intros m2 ops2 Hm2 Hsig. rewrite (cache_calls_updateManifest m2 ops2 a1 Hm2).
    assert (Hknown : ∀ s, s ∈ lastOperationSignatures a1 ↔ s ∈ signatures ops)
      by (intros s; apply (known_updateManifest m ops a s Hm)).
    assert (Hold : filter (λ s, s ∉ signatures ops2) (lastOperationSignatures a1) = []).
    { apply filter_none. intros s Hs Hn. apply Hn, Hsig, Hknown, Hs. }
    assert (Hnew : filter (λ op, signature op ∉ lastOperationSignatures a1) ops2 = []).
    { apply filter_none. intros op Hop Hn. apply Hn, Hknown, Hsig.
      apply list_elem_of_fmap. eauto. }
    rewrite Hold, Hnew. reflexivity. }
  split; [apply (Hsame m ops Hm); tauto|].
  split; [apply (Hsame m' ops' Hm')|].
  intros s e Hknown Hin He.
  assert (Hcalls := cache_calls_updateManifest m' ops' a Hm').
  split.
  - intros d ->.
    assert (Hc : CacheSet (getCacheKey s) d ∈ cache_calls (trace_of (updateManifest m' a)))
      by (apply elem_of_cache_calls; auto).
    rewrite Hcalls, elem_of_app, !list_elem_of_fmap in Hc.
    destruct Hc as [(op & Heq & [Hnew _]%list_elem_of_filter)|(s' & [=] & _)].
    assert (Hk : getCacheKey s = getCacheKey (signature op)) by congruence.
    apply getCacheKey_inj in Hk. subst s. contradiction.
  - intros ->.
    assert (Hc : CacheDelete (getCacheKey s) ∈ cache_calls (trace_of (updateManifest m' a)))
      by (apply elem_of_cache_calls; auto).
    rewrite Hcalls, elem_of_app, !list_elem_of_fmap in Hc.
    destruct Hc as [(op & [=] & _)|(s' & Heq & [Hgone _]%list_elem_of_filter)].
    assert (Hk : getCacheKey s = getCacheKey s') by congruence.
    apply getCacheKey_inj in Hk. subst s'. contradiction.
Qed.

(** C3.  A manifest that is absent, or whose version is not the number 1, or whose
    operations are not an array, is refused with the error "Invalid manifest
    format."; the stored signatures, the other fields and the cache are left as
    they were: no call of any kind is issued. *)
Theorem updateManifest_rejects_invalid (a : Agent) (m : value) :
  m = VUndefined ∨ m = VNull ∨ get m "version" ≠ Ok (VNumber 1) ∨
    (∀ ops, get m "operations" ≠ Ok (VArray ops)) →
  updateManifest m a = (a, [], Throw (Error "Invalid manifest format.")).
Proof.
  intros Hbad. unfold updateManifest.
  destruct (truthy m) eqn:Ht; [|reflexivity]. cbn [negb].
  assert (Hget : ∀ k, ∃ v, get m k = Ok v).
  { intros k. destruct m; cbn in Ht |- *; try discriminate; eauto. }
  destruct (Hget "version") as [version Hv].
  rewrite bind_run. unfold lift at 1. rewrite Hv. cbn beta iota zeta.
  destruct (is_number_1 version) eqn:H1; [|reflexivity]. cbn [negb].
  apply is_number_1_spec in H1. subst version.
  destruct (Hget "operations") as [operations Ho].
  rewrite bind_run. unfold lift at 1. rewrite Ho. cbn beta iota zeta.
  destruct Hbad as [->|[->|[Hbad|Hbad]]]; try discriminate; try contradiction.
  destruct operations; try reflexivity. exfalso. apply (Hbad items), Ho.
Qed.

(** ** The fetcher and the scheduler *)

Section Scheduler.

Context `{Platform}.

Lemma constructed_serviceID a :
  constructed a → ∃ s, get (engine (options a)) "serviceID" = Ok (VString s).
Proof.
  unfold constructed, constructor. rewrite bind_run. cbn [this]. cbn beta iota zeta.
  destruct (truthy (schemaHash (options a))); cbn [negb]; [|discriminate].
  case_bool_decide; [discriminate|].
  rewrite bind_run. unfold lift at 1.
  destruct (get (engine (options a)) "serviceID") as [sid|e]; [|discriminate].
  cbn beta iota zeta. case_bool_decide as Hs; [discriminate|]. intros _.
  destruct sid; cbn in Hs; try discriminate Hs. eauto.
Qed.

Lemma getHashedServiceId_run a :
  constructed a →
  getHashedServiceId a = (set_hashedServiceId (Some (hashed_of a)) a, [], Ok (hashed_of a)).
Proof.
  intros [s Hs]%constructed_serviceID.
  unfold getHashedServiceId, hashed_of, serviceID_of.
  rewrite bind_run. cbn [this]. cbn beta iota zeta. rewrite Hs.
  destruct (hashedServiceId a) as [h|]; [case_bool_decide|]; reflexivity.
Qed.

(** [tryUpdate] up to the answer of the network. *)
Lemma tryUpdate_run fetch a :
  constructed a →
  tryUpdate fetch a =
    match fetch (manifestUrl_of a) (fetchOptions_of a) with
    | Ok response =>
        let r := tryUpdate_response response (checked a) in
        (state_of r, request_trace a ++ trace_of r, outcome_of r)
    | Throw err => (checked a, request_trace a, Throw (fetch_error a err))
    end.
Proof.
  intros Hc. destruct (constructed_serviceID a Hc) as [s Hs].
  unfold tryUpdate. rewrite bind_run, (getHashedServiceId_run a Hc).
  cbn beta iota zeta. rewrite bind_run. cbn [this]. cbn beta iota zeta.
  rewrite bind_run, maybeLog_run. cbn beta iota zeta.
  rewrite bind_run. cbn [modify]. cbn beta iota zeta.
  rewrite bind_run. cbn [this]. cbn beta iota zeta.
  rewrite bind_run. cbn [emit]. cbn beta iota zeta.
  change (set_timesChecked _ _) with (checked a).
  change (getOperationManifestUrl (hashed_of a) _) with (manifestUrl_of a).
  change (mkRequestInit "GET" _ _) with (fetchOptions_of a).
  destruct (fetch (manifestUrl_of a) (fetchOptions_of a)) as [response|err].
  - destruct (tryUpdate_response response (checked a)) as [[a2 t2] r].
    cbn. unfold request_trace, log_line. cbn.
    rewrite <- !app_assoc. reflexivity.
  - rewrite bind_run. unfold lift at 1. cbn [checked set_timesChecked set_hashedServiceId options].
    rewrite Hs. cbn beta iota zeta. unfold fetch_error, serviceID_of. rewrite Hs.
    unfold request_trace, log_line. cbn.
    rewrite <- ?app_assoc. reflexivity.
Qed.

(** The promise chain of a check: what [tryUpdate] leaves, with the marker erased
    and, on success, the time recorded. *)
Lemma checkForUpdate_chain_run fetch now a :
  checkForUpdate_chain fetch now a =
    match tryUpdate fetch a with
    | (a1, t1, Ok result) =>
        (set_requestInFlight None (set_lastSuccessfulCheck (Some now) a1), t1,
         Ok (VBool result))
    | (a1, t1, Throw err) => (set_requestInFlight None a1, t1, Throw err)
    end.
Proof.
  unfold checkForUpdate_chain, try_catch. rewrite bind_run.
  destruct (tryUpdate fetch a) as [[a1 t1] [b|err]];
    unfold resetRequestInFlight; run_monad; rewrite ?app_nil_r; reflexivity.
Qed.

Lemma warnWhenLossOfSync_state now a : state_of (warnWhenLossOfSync now a) = a.
Proof.
  unfold warnWhenLossOfSync. rewrite bind_run. cbn [this]. cbn beta iota zeta.
  destruct (number_gt _ _); reflexivity.
Qed.

Lemma warnWhenLossOfSync_outcome now a : outcome_of (warnWhenLossOfSync now a) = Ok tt.
Proof.
  unfold warnWhenLossOfSync. rewrite bind_run. cbn [this]. cbn beta iota zeta.
  destruct (number_gt _ _); reflexivity.
Qed.

Lemma warnWhenLossOfSync_trace now a e :
  e ∈ trace_of (warnWhenLossOfSync now a) → ∃ msg, e = ConsoleWarn msg.
Proof.
  unfold warnWhenLossOfSync. rewrite bind_run. cbn [this]. cbn beta iota zeta.
  destruct (number_gt _ _); cbn.
  - intros ->%list_elem_of_singleton. eauto.
  - intros Hnil%elem_of_nil. destruct Hnil.
Qed.

Lemma checkForUpdate_begin_run now a :
  checkForUpdate_begin now a =
    (match requestInFlight a with
     | Some _ => a
     | None => set_requestInFlight (Some (Ok tt)) a
     end,
     trace_of (warnWhenLossOfSync now a),
     Ok match requestInFlight a with
        | Some p => InFlight p
        | None => NewCheck
        end).
Proof.
  unfold checkForUpdate_begin. rewrite bind_run.
  rewrite (run_eta (warnWhenLossOfSync now a)),
    warnWhenLossOfSync_state, warnWhenLossOfSync_outcome.
  cbn beta iota zeta. rewrite bind_run. cbn [this]. cbn beta iota zeta.
  destruct (requestInFlight a); run_monad; rewrite ?app_nil_r; reflexivity.
Qed.

End Scheduler.

(** ** Frames: what a method leaves alone *)

Section Frame.

Context {F : Type} (f : Agent → F) (P : effect → bool).

Lemma frame_ret {A} (x : A) : frame f P (mret x).
Proof. intros a. split; reflexivity. Qed.

Lemma frame_throw {A} e : frame f P (@throw A e).
Proof. intros a. split; reflexivity. Qed.

Lemma frame_lift {A} (r : result A) : frame f P (lift r).
Proof. intros a. split; reflexivity. Qed.

Lemma frame_this : frame f P this.
Proof. intros a. split; reflexivity. Qed.

Lemma frame_modify g : (∀ a, f (g a) = f a) → frame f P (modify g).
Proof. intros Hg a. split; [apply Hg|reflexivity]. Qed.

Lemma frame_emit e : P e = false → frame f P (emit e).
Proof.
  intros He a. split; [reflexivity|]. change (trace_of (emit e a)) with [e].
  rewrite filter_cons, decide_False; [reflexivity|]. rewrite He. exact id.
Qed.

Lemma frame_bind {A B} (m : M A) (k : A → M B) :
  frame f P m → (∀ x, frame f P (k x)) → frame f P (m ≫= k).
Proof.
  intros Hm Hk a. rewrite bind_run. specialize (Hm a).
  destruct (m a) as [[a1 t1] [x|e]]; cbn in Hm; [|exact Hm].
  specialize (Hk x a1). destruct (k x a1) as [[a2 t2] r]. cbn in Hk |- *.
  destruct Hm as [Hm1 Hm2], Hk as [Hk1 Hk2].
  split; [congruence|]. rewrite filter_app, Hm2, Hk2. reflexivity.
Qed.

Lemma frame_try_catch {A} (m : M A) (h : error → M A) :
  frame f P m → (∀ e, frame f P (h e)) → frame f P (try_catch m h).
Proof.
  intros Hm Hh a. unfold try_catch. specialize (Hm a).
  destruct (m a) as [[a1 t1] [x|e]]; cbn in Hm; [exact Hm|].
  specialize (Hh e a1). destruct (h e a1) as [[a2 t2] r]. cbn in Hh |- *.
  destruct Hm as [Hm1 Hm2], Hh as [Hh1 Hh2].
  split; [congruence|]. rewrite filter_app, Hm2, Hh2. reflexivity.
Qed.

Lemma frame_promise_of {A} (m : M A) : frame f P m → frame f P (promise_of m).
Proof.
  intros Hm a. unfold promise_of. specialize (Hm a).
  destruct (m a) as [[a1 t1] r]. exact Hm.
Qed.

Lemma frame_for_of {A S} (xs : list A) (body : A → S → M S) :
  (∀ x s, frame f P (body x s)) → ∀ s, frame f P (for_of xs body s).
Proof.
  intros Hbody. induction xs as [|x xs IH]; intros s; cbn [for_of].
  - apply frame_ret.
  - apply frame_bind; [apply Hbody|exact IH].
Qed.

Lemma frame_maybeLog msg : (∀ s, P (ConsoleDebug s) = false) → frame f P (maybeLog msg).
Proof.
  intros HP a. rewrite maybeLog_run. split; [reflexivity|].
  change (trace_of (a, log_line a msg, Ok ())) with (log_line a msg).
  unfold log_line. destruct (debug (options a)) as [[|]|]; try reflexivity.
  rewrite filter_cons, decide_False; [reflexivity|]. rewrite HP. exact id.
Qed.

End Frame.

(** Takes a method apart along its binds, branches and loops. *)
Ltac frame_step :=
  match goal with
  | |- frame _ _ (_ ≫= _) => apply frame_bind; [|intros]
  | |- frame _ _ (mret _) => apply frame_ret
  | |- frame _ _ (throw _) => apply frame_throw
  | |- frame _ _ (lift _) => apply frame_lift
  | |- frame _ _ this => apply frame_this
  | |- frame _ _ (modify _) => apply frame_modify; intros; solve [auto]
  | |- frame _ _ (emit _) => apply frame_emit; solve [auto]
  | |- frame _ _ (maybeLog _) => apply frame_maybeLog; solve [auto]
  | |- frame _ _ (try_catch _ _) => apply frame_try_catch; [|intros]
  | |- frame _ _ (promise_of _) => apply frame_promise_of
  | |- frame _ _ (for_of _ _ _) => apply frame_for_of; intros
  | |- frame _ _ (if ?b then _ else _) => destruct b
  | |- frame _ _ (match ?x with _ => _ end) => destruct x
  | |- frame _ _ _ => progress cbv zeta
  end.

Ltac frame_tac := repeat frame_step.

Section FrameOfMethods.

Context `{Platform} {F : Type} (f : Agent → F) (P : effect → bool).

Hypothesis f_hashedServiceId : ∀ h a, f (set_hashedServiceId h a) = f a.
Hypothesis f_requestInFlight : ∀ p a, f (set_requestInFlight p a) = f a.
Hypothesis f_lastSuccessfulCheck : ∀ d a, f (set_lastSuccessfulCheck d a) = f a.
Hypothesis f_timesChecked : ∀ n a, f (set_timesChecked n a) = f a.
Hypothesis f_lastSuccessfulETag : ∀ e a, f (set_lastSuccessfulETag e a) = f a.
Hypothesis f_lastOperationSignatures : ∀ s a, f (set_lastOperationSignatures s a) = f a.
Hypothesis P_CacheSet : ∀ k v, P (CacheSet k v) = false.
Hypothesis P_CacheDelete : ∀ k, P (CacheDelete k) = false.
Hypothesis P_ConsoleDebug : ∀ s, P (ConsoleDebug s) = false.
Hypothesis P_ConsoleWarn : ∀ s, P (ConsoleWarn s) = false.
Hypothesis P_Fetch : ∀ url init, P (Fetch url init) = false.

Lemma frame_updateManifest m : frame f P (updateManifest m).
Proof. unfold updateManifest. frame_tac. Qed.

Lemma frame_tryUpdate_response response : frame f P (tryUpdate_response response).
Proof. unfold tryUpdate_response. frame_tac; apply frame_updateManifest. Qed.

Lemma frame_warnWhenLossOfSync now : frame f P (warnWhenLossOfSync now).
Proof. unfold warnWhenLossOfSync. frame_tac. Qed.

Lemma frame_checkForUpdate_begin now : frame f P (checkForUpdate_begin now).
Proof. unfold checkForUpdate_begin. frame_tac. apply frame_warnWhenLossOfSync. Qed.

Lemma frame_tryUpdate fetch : frame f P (tryUpdate fetch).
Proof.
  unfold tryUpdate, getHashedServiceId. frame_tac; apply frame_tryUpdate_response.
Qed.

Lemma frame_checkForUpdate_chain fetch now : frame f P (checkForUpdate_chain fetch now).
Proof.
  unfold checkForUpdate_chain, resetRequestInFlight. frame_tac. apply frame_tryUpdate.
Qed.

Lemma frame_checkForUpdate_settle fetch now r :
  frame f P (checkForUpdate_settle fetch now r).
Proof.
  unfold checkForUpdate_settle. frame_tac. apply frame_checkForUpdate_chain.
Qed.

Lemma frame_checkForUpdate now fetch now' : frame f P (checkForUpdate now fetch now').
Proof.
  unfold checkForUpdate. frame_tac;
    [apply frame_checkForUpdate_begin|apply frame_checkForUpdate_settle].
Qed.

End FrameOfMethods.

(** ** The scheduler's guard and the fetcher's answers *)

Section Claims.

Context `{Platform}.

Lemma constructed_options a b : options a = options b → constructed a → constructed b.
Proof.
  unfold constructed, constructor. intros Ho. rewrite !bind_run. cbn [this].
  cbn beta iota zeta. rewrite Ho. clear Ho.
  destruct (truthy (schemaHash (options b))); cbn [negb]; [|discriminate].
  case_bool_decide; [discriminate|].
  rewrite !bind_run. unfold lift.
  destruct (get (engine (options b)) "serviceID") as [sid|e]; [|discriminate].
  cbn beta iota zeta. case_bool_decide; [discriminate|reflexivity].
Qed.

Lemma fetches_app t1 t2 : fetches (t1 ++ t2) = fetches t1 ++ fetches t2.
Proof. apply filter_app. Qed.

Lemma fetches_warnWhenLossOfSync now a : fetches (trace_of (warnWhenLossOfSync now a)) = [].
Proof. apply (frame_warnWhenLossOfSync (λ _, tt) is_fetch); reflexivity. Qed.

Lemma fetches_request_trace a :
  fetches (request_trace a) = [Fetch (manifestUrl_of a) (fetchOptions_of a)].
Proof.
  unfold request_trace, log_line. destruct (debug (options a)) as [[|]|]; reflexivity.
Qed.

Lemma fetches_tryUpdate_response response a :
  fetches (trace_of (tryUpdate_response response a)) = [].
Proof. apply (frame_tryUpdate_response (λ _, tt) is_fetch); reflexivity. Qed.

Lemma timesChecked_tryUpdate_response response a :
  _timesChecked (state_of (tryUpdate_response response a)) = _timesChecked a.
Proof. apply (frame_tryUpdate_response _timesChecked (λ _, false)); reflexivity. Qed.

(** The chain of a check, on a constructed agent: one request, the counter one
    higher, the marker erased, and a boolean or an error for the caller. *)
Lemma checkForUpdate_chain_cases fetch now a :
  constructed a →
  let c := checkForUpdate_chain fetch now a in
  requestInFlight (state_of c) = None ∧
  _timesChecked (state_of c) = _timesChecked a + 1 ∧
  length (fetches (trace_of c)) = 1%nat ∧
  ((∃ b, outcome_of c = Ok (VBool b)) ∨ (∃ e, outcome_of c = Throw e)).
Proof.
  intros Hc. cbv zeta. rewrite checkForUpdate_chain_run, (tryUpdate_run fetch a Hc).
  destruct (fetch (manifestUrl_of a) (fetchOptions_of a)) as [response|err].
  - cbv zeta.
    pose proof (fetches_tryUpdate_response response (checked a)) as Hf.
    pose proof (timesChecked_tryUpdate_response response (checked a)) as Ht.
    destruct (tryUpdate_response response (checked a)) as [[a2 t2] [b|e]];
      cbn [state_of trace_of outcome_of fst snd] in Hf, Ht |- *;
      rewrite fetches_app, fetches_request_trace, Hf;
      (split; [reflexivity|]); (split; [exact Ht|]); (split; [reflexivity|]); eauto.
  - cbn [state_of trace_of outcome_of fst snd]. rewrite fetches_request_trace.
    split; [reflexivity|]. split; [reflexivity|]. split; [reflexivity|]. eauto.
Qed.

Lemma overlapping_calls_run now1 now2 fetch now3 a0 :
  requestInFlight a0 = None →
  overlapping_calls now1 now2 fetch now3 a0 =
    let a1 := set_requestInFlight (Some (Ok tt)) a0 in
    let c := checkForUpdate_chain fetch now3 a1 in
    (state_of c,
     trace_of (warnWhenLossOfSync now1 a0) ++ trace_of (warnWhenLossOfSync now2 a1) ++
       trace_of c,
     Ok (outcome_of c, Ok VUndefined)).
Proof.
  intros Hn0. cbv zeta. unfold overlapping_calls.
  rewrite bind_run, checkForUpdate_begin_run, Hn0. cbv beta iota zeta.
  set (a1 := set_requestInFlight (Some (Ok tt)) a0).
  rewrite bind_run, checkForUpdate_begin_run.
  change (requestInFlight a1) with (Some (Ok tt : result unit)). cbv beta iota zeta.
  rewrite bind_run. unfold promise_of at 1. cbn [checkForUpdate_settle].
  destruct (checkForUpdate_chain fetch now3 a1) as [[a2 t2] first].
  rewrite bind_run. unfold promise_of, adopt, lift. run_monad.
  rewrite !app_nil_r. reflexivity.
Qed.

(** C4, as the code has it.  While the marker is set, a call of [checkForUpdate] changes
    no field (the counter of checks in particular), issues no request and hands
    back the marker itself.  The marker that a check installs is the promise
    [Promise.resolve()], already fulfilled with no value: of two overlapping calls
    on a constructed agent, exactly one request is issued and the counter rises by
    one, the promise of the second caller is fulfilled with [undefined], and the
    promise of the first caller settles to the boolean of the check or to its
    error, never to what the second caller sees. *)
Theorem checkForUpdate_in_flight
    (a a0 : Agent) (p : result unit) (now now1 now2 now3 : Z)
    (fetch : string → RequestInit → result Response) :
  requestInFlight a = Some p →
  constructed a0 →
  requestInFlight a0 = None →
  outcome_of (checkForUpdate_begin now a) = Ok (InFlight p) ∧
  (∀ fetch' now',
     let c := checkForUpdate now fetch' now' a in
     state_of c = a ∧ fetches (trace_of c) = [] ∧ outcome_of c = adopt p) ∧
  let r := overlapping_calls now1 now2 fetch now3 a0 in
  length (fetches (trace_of r)) = 1%nat ∧
  _timesChecked (state_of r) = _timesChecked a0 + 1 ∧
  ∃ first, outcome_of r = Ok (first, Ok VUndefined) ∧ first ≠ Ok VUndefined.
Proof.
  intros Hp Hc0 Hn0. split; [|split].
  - rewrite checkForUpdate_begin_run, Hp. reflexivity.
  - intros fetch' now'. cbv zeta. unfold checkForUpdate.
    rewrite bind_run, checkForUpdate_begin_run, Hp. cbn.
    rewrite app_nil_r, fetches_warnWhenLossOfSync. auto.
  - cbv zeta. rewrite (overlapping_calls_run now1 now2 fetch now3 a0 Hn0). cbv zeta.
    set (a1 := set_requestInFlight (Some (Ok tt)) a0).
    assert (Hc1 : constructed a1) by (apply (constructed_options a0); [reflexivity|exact Hc0]).
    destruct (checkForUpdate_chain_cases fetch now3 a1 Hc1) as (Hm & Ht & Hf & Ho).
    cbn [state_of trace_of outcome_of fst snd].
    rewrite !fetches_app, !fetches_warnWhenLossOfSync. cbn [app].
    split; [exact Hf|]. split; [exact Ht|].
    exists (outcome_of (checkForUpdate_chain fetch now3 a1)). split; [reflexivity|].
    destruct Ho as [[b ->]|[e ->]]; discriminate.
Qed.

(** C5, as the code has it.  While no check has succeeded the time
    since the last success is [-Infinity], which is not greater than the threshold:
    whatever the time, [warnWhenLossOfSync] prints nothing, and the synchronous part
    of [checkForUpdate] issues no warning. *)
Theorem warnWhenLossOfSync_silent_before_first_success (a : Agent) (now : Z) :
  let a0 := set_lastSuccessfulCheck None a in
  timeSinceLastSuccessfulCheck now a0 = NegInfinity ∧
  warnWhenLossOfSync now a0 = (a0, [], Ok tt) ∧
  trace_of (checkForUpdate_begin now a0) = [].
Proof.
  cbv zeta. split; [reflexivity|]. split; [reflexivity|].
  rewrite checkForUpdate_begin_run. reflexivity.
Qed.

Lemma tryUpdate_response_304 response a :
  status response = 304 →
  tryUpdate_response response a =
    (a, log_line a "The published manifest was the same as the previous attempt.",
     Ok false).
Proof.
  intros Hs. unfold tryUpdate_response. rewrite Hs. cbn [Z.eqb Pos.eqb].
  rewrite bind_run, maybeLog_run. run_monad. rewrite app_nil_r. reflexivity.
Qed.

(** C6.  When the network answers "not modified" (304), [tryUpdate] returns
    [false]; the stored signatures and the stored validator are as before and no
    call on the cache is made (of the fields, [tryUpdate] changes only the
    diagnostic counter and the memoised hash of the service identifier); and a
    [checkForUpdate] that begins such a check is fulfilled, with [false], leaving
    signatures, validator and cache alone as well. *)
Theorem tryUpdate_not_modified
    (a : Agent) (fetch : string → RequestInit → result Response) (now now' : Z) :
  constructed a →
  (∀ url init, ∃ response, fetch url init = Ok response ∧ status response = 304) →
  let r := tryUpdate fetch a in
  outcome_of r = Ok false ∧
  state_of r = checked a ∧
  lastOperationSignatures (state_of r) = lastOperationSignatures a ∧
  lastSuccessfulETag (state_of r) = lastSuccessfulETag a ∧
  lastSuccessfulCheck (state_of r) = lastSuccessfulCheck a ∧
  cache_calls (trace_of r) = [] ∧
  (requestInFlight a = None →
   let c := checkForUpdate now fetch now' a in
   outcome_of c = Ok (VBool false) ∧
   lastOperationSignatures (state_of c) = lastOperationSignatures a ∧
   lastSuccessfulETag (state_of c) = lastSuccessfulETag a ∧
   cache_calls (trace_of c) = []).
Proof.
  intros Hc Hfetch.
  assert (Hrun : ∀ b, constructed b →
            tryUpdate fetch b =
              (checked b,
               request_trace b ++
                 log_line (checked b)
                   "The published manifest was the same as the previous attempt.",
               Ok false)).
  { intros b Hb. rewrite (tryUpdate_run fetch b Hb).
    destruct (Hfetch (manifestUrl_of b) (fetchOptions_of b)) as (response & -> & Hs).
    cbv zeta. rewrite (tryUpdate_response_304 response _ Hs). reflexivity. }
  assert (Hquiet : ∀ b, cache_calls (request_trace b ++
            log_line (checked b)
              "The published manifest was the same as the previous attempt.") = []).
  { intros b. rewrite cache_calls_app, cache_calls_log, app_nil_r.
    unfold request_trace. rewrite cache_calls_app, cache_calls_log. reflexivity. }
  cbv zeta. rewrite (Hrun a Hc). cbn [state_of trace_of outcome_of fst snd].
  split; [reflexivity|]. split; [reflexivity|]. split; [reflexivity|].
  split; [reflexivity|]. split; [reflexivity|]. split; [apply Hquiet|].
  intros Hn. unfold checkForUpdate.
  rewrite bind_run, checkForUpdate_begin_run, Hn. cbv beta iota zeta.
  cbn [checkForUpdate_settle]. rewrite checkForUpdate_chain_run.
  set (a1 := set_requestInFlight (Some (Ok tt)) a).
  assert (Hc1 : constructed a1) by (apply (constructed_options a); [reflexivity|exact Hc]).
  rewrite (Hrun a1 Hc1). cbn [state_of trace_of outcome_of fst snd].
  split; [reflexivity|]. split; [reflexivity|]. split; [reflexivity|].
  rewrite cache_calls_app, Hquiet, app_nil_r.
  apply (frame_warnWhenLossOfSync (λ _, tt) is_cache_call); reflexivity.
Qed.

(** C9.  A [checkForUpdate] that begins a new check installs the marker, and when
    its promise settles the marker is [null] again, whether [tryUpdate] returned or
    threw: a returned boolean is what the promise is fulfilled with (and the time
    is recorded), a thrown error is what it is rejected with, and the next call
    begins a new check. *)
Theorem checkForUpdate_clears_marker
    (a : Agent) (now : Z) (fetch : string → RequestInit → result Response)
    (now' : Z) :
  requestInFlight a = None →
  let b := checkForUpdate_begin now a in
  let t := tryUpdate fetch (state_of b) in
  let r := checkForUpdate now fetch now' a in
  outcome_of b = Ok NewCheck ∧
  requestInFlight (state_of b) = Some (Ok tt) ∧
  requestInFlight (state_of r) = None ∧
  (∀ result, outcome_of t = Ok result →
     outcome_of r = Ok (VBool result) ∧ lastSuccessfulCheck (state_of r) = Some now') ∧
  (∀ err, outcome_of t = Throw err → outcome_of r = Throw err) ∧
  (∀ now'', outcome_of (checkForUpdate_begin now'' (state_of r)) = Ok NewCheck).
Proof.
  intros Hn. cbv zeta. unfold checkForUpdate.
  rewrite bind_run, !checkForUpdate_begin_run, Hn. cbv beta iota zeta.
  cbn [checkForUpdate_settle state_of outcome_of fst snd].
  rewrite checkForUpdate_chain_run.
  destruct (tryUpdate fetch (set_requestInFlight (Some (Ok tt)) a)) as [[a1 t1] [b|e]];
    cbn [state_of trace_of outcome_of fst snd];
    (split; [reflexivity|]); (split; [reflexivity|]); (split; [reflexivity|]).
  - split; [intros ? [= <-]; split; reflexivity|].
    split; [discriminate|]. intros now''. rewrite checkForUpdate_begin_run. reflexivity.
  - split; [discriminate|].
    split; [intros ? [= <-]; reflexivity|].
    intros now''. rewrite checkForUpdate_begin_run. reflexivity.
Qed.

(** C7, as the code has it.  After a successful fetch whose response carries a non-empty
    [etag] header that [JSON.parse] decodes, the validator the agent stores is the
    decoded value, not the header as received; the next request carries that value
    as its [If-None-Match] header when it is truthy. *)
Theorem tryUpdate_stores_decoded_etag
    (a : Agent) (fetch : string → RequestInit → result Response)
    (response : Response) (manifest : value) (ops : list Operation)
    (raw : string) (etag : value) :
  constructed a →
  (∀ url init, fetch url init = Ok response) →
  status response ≠ 304 →
  ok response = true →
  (∀ c, headers_get response "content-type" = Some c → c = "" ∨ c = "application/json") →
  json response = Ok manifest →
  valid_manifest manifest ops →
  headers_get response "etag" = Some raw →
  raw ≠ "" →
  JSON_parse raw = Ok etag →
  let r := tryUpdate fetch a in
  outcome_of r = Ok true ∧
  lastSuccessfulETag (state_of r) = Some etag ∧
  headers (fetchOptions_of (state_of r)) =
    (if truthy etag then [("If-None-Match", etag)] else []).
Proof.
  intros Hc Hfetch Hs Hok Hct Hjson Hm Hetag Hraw Hparse. cbv zeta.
  rewrite (tryUpdate_run fetch a Hc), Hfetch. cbv zeta.
  assert (Hresp : tryUpdate_response response (checked a) =
            (set_lastSuccessfulETag (Some etag)
               (set_lastOperationSignatures (replacement_of ops []) (checked a)),
             trace_of (updateManifest manifest (checked a)), Ok true)).
  { unfold tryUpdate_response.
    apply Z.eqb_neq in Hs. rewrite Hs, Hok. cbn [negb].
    rewrite bind_run.
    assert (Hcheck : (match headers_get response "content-type" with
                      | Some contentType =>
                          if negb (bool_decide (contentType = "")) &&
                             negb (bool_decide (contentType = "application/json"))
                          then throw (Error ("Unexpected 'Content-Type' header: " +:+ contentType))
                          else mret tt
                      | None => mret tt
                      end) (checked a) = (checked a, [], Ok tt)).
    { destruct (headers_get response "content-type") as [c|]; [|reflexivity].
      destruct (Hct c eq_refl) as [-> | ->]; reflexivity. }
    rewrite Hcheck. cbv beta iota zeta.
    rewrite bind_run. unfold lift at 1. rewrite Hjson. cbv beta iota zeta.
    rewrite bind_run, (updateManifest_valid manifest ops _ Hm). cbv beta iota zeta.
    rewrite bind_run, Hetag, (bool_decide_eq_false_2 _ Hraw). cbn [negb].
    rewrite bind_run. unfold lift at 1. rewrite Hparse. run_monad.
    rewrite !app_nil_r. reflexivity. }
  rewrite Hresp. cbn [state_of trace_of outcome_of fst snd].
  split; [reflexivity|]. split; reflexivity.
Qed.

End Claims.

(** ** The constructor *)

(** The constructor issues no call at all, and leaves the fields as their
    initialisers set them. *)
Lemma constructor_pure a : state_of (constructor a) = a ∧ trace_of (constructor a) = [].
Proof.
  assert (Hf : frame (λ a, a) (λ _, true) constructor)
    by (unfold constructor; frame_tac).
  destruct (Hf a) as [Hs Ht]. split; [exact Hs|].
  destruct (trace_of (constructor a)) as [|e t]; [reflexivity|].
  rewrite filter_cons, decide_True in Ht by exact I. discriminate.
Qed.

(** C8, as the code has it.  The constructor fails, having issued no call of any kind
    (so no request), exactly when the schema hash is missing or empty, or the
    engine is not an object, or reading its [serviceID] does not give a string;
    otherwise it returns the agent.  In particular the empty string is accepted as
    a service identifier. *)
Theorem constructor_rejects_missing_options (opts : AgentOptions) :
  (truthy (schemaHash opts) = false ∨ typeof (engine opts) ≠ "object" ∨
     (∀ s, get (engine opts) "serviceID" ≠ Ok (VString s)) →
   ∃ e, new_Agent opts = ([], Throw e)) ∧
  (truthy (schemaHash opts) = true →
   ∀ fields s, engine opts = VObject fields → assoc "serviceID" fields = Some (VString s) →
   new_Agent opts = ([], Ok (new_fields opts))).
Proof.
  unfold new_Agent.
  pose proof (constructor_pure (new_fields opts)) as [Hst Htr].
  split.
  - intros Hbad.
    destruct (constructor (new_fields opts)) as [[a t] [[]|e]] eqn:Hrun;
      cbn in Hst, Htr; subst; [|eauto].
    exfalso.
    assert (Hc : constructed (new_fields opts)) by (unfold constructed; rewrite Hrun; reflexivity).
    destruct (constructed_serviceID _ Hc) as [s Hs].
    revert Hrun. unfold constructor. rewrite bind_run. cbn [this]. cbv beta iota zeta.
    cbn [options new_fields] in Hs |- *.
    destruct Hbad as [Hbad|[Hbad|Hbad]].
    + rewrite Hbad. discriminate.
    + destruct (truthy (schemaHash opts)); cbn [negb]; [|discriminate].
      rewrite bool_decide_eq_true_2 by exact Hbad. discriminate.
    + exfalso. apply (Hbad s), Hs.
  - intros Ht fields s He Hs. unfold constructor.
    rewrite bind_run. cbn [this]. cbv beta iota zeta. cbn [options new_fields].
    rewrite Ht, He. cbn [negb typeof]. rewrite bool_decide_eq_false_2 by (intros Hn; apply Hn; reflexivity).
    rewrite bind_run. unfold lift at 1. cbn [get]. rewrite Hs. cbn [default].
    cbv beta iota zeta. cbn [typeof].
    rewrite bool_decide_eq_false_2 by (intros Hn; apply Hn; reflexivity). reflexivity.
Qed.

(** ** The interval timer *)

Section Timer.

Context `{Platform}.

Lemma timers_armed_app t1 t2 : timers_armed (t1 ++ t2) = timers_armed t1 ++ timers_armed t2.
Proof. apply filter_app. Qed.

Lemma active_timers_app t1 t2 :
  active_timers (t1 ++ t2) = foldl timer_step (active_timers t1) t2.
Proof. unfold active_timers. apply foldl_app. Qed.

Lemma no_timer_effect t :
  filter is_timer_effect t = [] →
  timers_armed t = [] ∧ ∀ on, foldl timer_step on t = on.
Proof.
  induction t as [|e t IH]; [split; reflexivity|].
  rewrite filter_cons. destruct (decide (is_timer_effect e)) as [He|He]; [discriminate|].
  intros [IH1 IH2]%IH. unfold timers_armed. rewrite filter_cons.
  destruct e; cbn in He |- *; try (exfalso; apply He; exact I);
    (split; [exact IH1|intros on; apply IH2]).
Qed.

Lemma one_timer_frame {A} (m : M A) a t :
  frame timer is_timer_effect m → one_timer a t →
  one_timer (state_of (m a)) (t ++ trace_of (m a)).
Proof.
  intros Hm Hinv. destruct (Hm a) as [Hst Htr].
  apply no_timer_effect in Htr as [Harm Hact].
  unfold one_timer. rewrite Hst, timers_armed_app, Harm, app_nil_r, active_timers_app, Hact.
  exact Hinv.
Qed.

Lemma one_timer_start_timer fresh a t :
  one_timer a t →
  one_timer (state_of (start_timer fresh a)) (t ++ trace_of (start_timer fresh a)).
Proof.
  intros Hinv. unfold start_timer. rewrite bind_run. cbn [this]. cbv beta iota zeta.
  destruct Hinv as [(Hn & Harm & Hact)|(id & ms & Hs & Harm & Hact)].
  - rewrite Hn. run_monad. right. exists fresh, (get_pollSeconds a * 1000).
    split; [reflexivity|].
    rewrite timers_armed_app, Harm, active_timers_app, Hact. split; [reflexivity|].
    cbn [foldl timer_step]. rewrite union_empty_l_L. reflexivity.
  - rewrite Hs. run_monad. rewrite app_nil_r. right. exists id, ms. auto.
Qed.

Lemma one_timer_stop a t :
  one_timer a t → one_timer (state_of (stop a)) (t ++ trace_of (stop a)).
Proof.
  intros Hinv. unfold stop. rewrite bind_run. cbn [this]. cbv beta iota zeta.
  destruct Hinv as [(Hn & Harm & Hact)|(id & ms & Hs & Harm & Hact)].
  - rewrite Hn. run_monad. rewrite app_nil_r. left. auto.
  - rewrite Hs. run_monad. right. exists id, ms.
    split; [exact Hs|]. rewrite timers_armed_app, Harm, active_timers_app.
    split; [reflexivity|]. cbn [foldl timer_step].
    apply subseteq_difference_l, Hact.
Qed.

Lemma frame_timer_checkForUpdate now fetch now' :
  frame timer is_timer_effect (checkForUpdate now fetch now').
Proof. apply frame_checkForUpdate; reflexivity. Qed.

Lemma frame_timer_tick now fetch now' : frame timer is_timer_effect (tick now fetch now').
Proof. unfold tick. frame_tac. apply frame_timer_checkForUpdate. Qed.

Lemma frame_timer_start_first_pulse now fetch now' :
  frame timer is_timer_effect (start_first_pulse now fetch now').
Proof. unfold start_first_pulse. frame_tac. apply frame_timer_checkForUpdate. Qed.

Lemma start_first_pulse_outcome now fetch now' a :
  outcome_of (start_first_pulse now fetch now' a) = Ok tt.
Proof.
  unfold start_first_pulse, try_catch. rewrite bind_run.
  destruct (checkForUpdate now fetch now' a) as [[a1 t1] [v|e]]; reflexivity.
Qed.

(** [start] is its first pulse, with the error caught, and then the statement
    that arms the timer. *)
Lemma start_run now fetch now' fresh a :
  drop_outcome (start now fetch now' fresh a) =
    (state_of (start_timer fresh (state_of (start_first_pulse now fetch now' a))),
     trace_of (start_first_pulse now fetch now' a) ++
       trace_of (start_timer fresh (state_of (start_first_pulse now fetch now' a)))).
Proof.
  unfold start. rewrite bind_run.
  rewrite (run_eta (start_first_pulse now fetch now' a)), start_first_pulse_outcome.
  cbv beta iota zeta. cbn [state_of trace_of fst snd].
  destruct (start_timer fresh _) as [[a2 t2] r]. reflexivity.
Qed.

Lemma one_timer_step s a t :
  one_timer a t →
  one_timer (run_step s a).1 (t ++ (run_step s a).2).
Proof.
  intros Hinv. destruct s; cbn [run_step];
    try rewrite start_run; unfold drop_outcome; cbn [fst snd].
  - apply one_timer_frame; [apply frame_checkForUpdate_begin; reflexivity|exact Hinv].
  - apply one_timer_frame; [apply frame_checkForUpdate_chain; reflexivity|exact Hinv].
  - apply one_timer_start_timer, Hinv.
  - rewrite app_assoc. apply one_timer_start_timer, one_timer_frame;
      [apply frame_timer_start_first_pulse|exact Hinv].
  - apply one_timer_frame; [apply frame_timer_tick|exact Hinv].
  - apply one_timer_stop, Hinv.
  - apply one_timer_frame; [apply frame_updateManifest; reflexivity|exact Hinv].
Qed.

Lemma one_timer_steps ss : ∀ a t,
  one_timer a t →
  one_timer (run_steps ss a).1 (t ++ (run_steps ss a).2).
Proof.
  induction ss as [|s ss IH]; intros a t Hinv; cbn [run_steps].
  - cbn. rewrite app_nil_r. exact Hinv.
  - pose proof (one_timer_step s a t Hinv) as Hstep.
    destruct (run_step s a) as [a1 t1]. cbn [fst snd] in Hstep.
    specialize (IH a1 (t ++ t1) Hstep).
    destruct (run_steps ss a1) as [a2 t2]. cbn [fst snd] in IH |- *.
    rewrite app_assoc. exact IH.
Qed.

(** C10.  A [start] on an agent whose timer is set keeps the timer and arms none.
    Along every run of an agent that began with no timer (whole calls, or the
    pieces of overlapping calls, in any order) at most one timer is armed, and
    after a [stop] none is active. *)
Theorem start_arms_at_most_one_timer
    (a b : Agent) (id : TimerId) (ss : list step)
    (now : Z) (fetch : string → RequestInit → result Response) (now' : Z)
    (fresh : TimerId) :
  timer a = None →
  timer b = Some id →
  (timer (state_of (start now fetch now' fresh b)) = Some id ∧
   timers_armed (trace_of (start now fetch now' fresh b)) = []) ∧
  (length (timers_armed (run_steps ss a).2) ≤ 1)%nat ∧
  active_timers ((run_steps ss a).2 ++ trace_of (stop (run_steps ss a).1)) = ∅.
Proof.
  intros Ha Hb. split.
  - pose proof (start_run now fetch now' fresh b) as Hrun.
    unfold drop_outcome in Hrun. injection Hrun as -> ->.
    destruct (frame_timer_start_first_pulse now fetch now' b) as [Hst Htr].
    apply no_timer_effect in Htr as [Harm _].
    unfold start_timer. rewrite bind_run. cbn [this]. cbv beta iota zeta.
    rewrite Hst, Hb. run_monad. rewrite app_nil_r. auto.
  - assert (Hinv : one_timer a []) by (left; auto).
    apply (one_timer_steps ss) in Hinv. cbn [app] in Hinv.
    destruct (run_steps ss a) as [a' t]. cbn [fst snd] in Hinv |- *.
    pose proof (one_timer_stop a' t Hinv) as Hstop.
    destruct Hinv as [(Hn & Harm & Hact)|(id' & ms & Hs & Harm & Hact)].
    + rewrite Harm. split; [cbn; lia|].
      unfold stop. rewrite bind_run. cbn [this]. cbv beta iota zeta. rewrite Hn.
      run_monad. rewrite app_nil_r. exact Hact.
    + rewrite Harm. split; [cbn; lia|].
      unfold stop. rewrite bind_run. cbn [this]. cbv beta iota zeta. rewrite Hs.
      run_monad. rewrite active_timers_app. cbn [foldl timer_step].
      apply subseteq_empty_difference_L, Hact.
Qed.

End Timer.

(** * The other branches of the fetcher *)

Section Fetcher.

Context `{Platform}.

(** [tryUpdate] from the response on, branch by branch. *)
Lemma tryUpdate_response_run response a :
  tryUpdate_response response a =
    if (status response =? 304)%Z then
      (a, log_line a "The published manifest was the same as the previous attempt.",
       Ok false)
    else if negb (ok response) then
      (a, [], Throw (Error ("Could not fetch manifest " +:+ text response)))
    else if negb (content_type_ok response) then
      (a, [],
       Throw (Error ("Unexpected 'Content-Type' header: " +:+
                     default EmptyString (headers_get response "content-type"))))
    else
      match json response with
      | Throw e => (a, [], Throw e)
      | Ok manifest =>
          match updateManifest manifest a with
          | (a1, t1, Throw e) => (a1, t1, Throw e)
          | (a1, t1, Ok _) =>
              match headers_get response "etag" with
              | Some receivedETag =>
                  if bool_decide (receivedETag = "") then (a1, t1, Ok true)
                  else
                    match JSON_parse receivedETag with
                    | Ok etag => (set_lastSuccessfulETag (Some etag) a1, t1, Ok true)
                    | Throw e => (a1, t1, Throw e)
                    end
              | None => (a1, t1, Ok true)
              end
          end
      end.
Proof.
  unfold tryUpdate_response, content_type_ok.
  destruct (status response =? 304)%Z.
  { rewrite bind_run, maybeLog_run. run_monad. rewrite app_nil_r. reflexivity. }
  destruct (ok response); cbn [negb]; [|reflexivity].
  rewrite bind_run.
  destruct (headers_get response "content-type") as [c|]; cbn [default].
  - destruct (bool_decide (c = "")), (bool_decide (c = "application/json"));
      cbn [negb andb orb]; try reflexivity;
      cbn [mret M_ret ret]; cbv beta iota zeta;
      rewrite bind_run; unfold lift at 1;
      (destruct (json response) as [manifest|e]; [|reflexivity]);
      cbv beta iota zeta; rewrite bind_run;
      (destruct (updateManifest manifest a) as [[a1 t1] [[]|e]]; [|reflexivity]);
      cbv beta iota zeta; rewrite bind_run;
      (destruct (headers_get response "etag") as [raw|];
        [destruct (bool_decide (raw = "")); cbn [negb];
          [|rewrite bind_run; unfold lift at 1; destruct (JSON_parse raw)]|]);
      run_monad; rewrite ?app_nil_r; reflexivity.
  - cbn [negb mret M_ret ret]. cbv beta iota zeta.
    rewrite bind_run. unfold lift at 1.
    destruct (json response) as [manifest|e]; [|reflexivity].
    cbv beta iota zeta. rewrite bind_run.
    destruct (updateManifest manifest a) as [[a1 t1] [[]|e]]; [|reflexivity].
    cbv beta iota zeta. rewrite bind_run.
    destruct (headers_get response "etag") as [raw|];
      [destruct (bool_decide (raw = "")); cbn [negb];
        [|rewrite bind_run; unfold lift at 1; destruct (JSON_parse raw)]|];
      run_monad; rewrite ?app_nil_r; reflexivity.
Qed.

Lemma cache_calls_request_trace a : cache_calls (request_trace a) = [].
Proof. unfold request_trace. rewrite cache_calls_app, cache_calls_log. reflexivity. Qed.

Lemma etag_updateManifest m a :
  lastSuccessfulETag (state_of (updateManifest m a)) = lastSuccessfulETag a.
Proof. apply (frame_updateManifest lastSuccessfulETag (λ _, false)); reflexivity. Qed.


(** X2.  A response that is neither "not modified" nor in the 2xx range makes
    [tryUpdate] throw "Could not fetch manifest" followed by the body of the
    response; the body is not decoded, nothing is stored and the cache is not
    called. *)
Theorem tryUpdate_bad_status
    (a : Agent) (fetch : string → RequestInit → result Response)
    (response : Response) :
  constructed a →
  (∀ url init, fetch url init = Ok response) →
  status response ≠ 304 →
  ok response = false →
  let r := tryUpdate fetch a in
  outcome_of r = Throw (Error ("Could not fetch manifest " +:+ text response)) ∧
  state_of r = checked a ∧
  cache_calls (trace_of r) = [].
Proof.
  intros Hc Hfetch Hs Hok. cbv zeta. rewrite (tryUpdate_run fetch a Hc), Hfetch.
  cbv zeta. rewrite tryUpdate_response_run.
  apply Z.eqb_neq in Hs. rewrite Hs, Hok. cbn [negb state_of trace_of outcome_of fst snd].
  rewrite app_nil_r, cache_calls_request_trace. auto.
Qed.

(** X3.  A 2xx response whose [Content-Type] header is present, not empty and not
    exactly [application/json] makes [tryUpdate] throw "Unexpected 'Content-Type'
    header" with the header; the manifest in the body, valid or not, is not
    applied. *)
Theorem tryUpdate_unexpected_content_type
    (a : Agent) (fetch : string → RequestInit → result Response)
    (response : Response) (contentType : string) :
  constructed a →
  (∀ url init, fetch url init = Ok response) →
  status response ≠ 304 →
  ok response = true →
  headers_get response "content-type" = Some contentType →
  contentType ≠ "" →
  contentType ≠ "application/json" →
  let r := tryUpdate fetch a in
  outcome_of r = Throw (Error ("Unexpected 'Content-Type' header: " +:+ contentType)) ∧
  state_of r = checked a ∧
  cache_calls (trace_of r) = [].
Proof.
  intros Hc Hfetch Hs Hok Hct Hne Hnj. cbv zeta.
  rewrite (tryUpdate_run fetch a Hc), Hfetch. cbv zeta. rewrite tryUpdate_response_run.
  apply Z.eqb_neq in Hs. rewrite Hs, Hok. unfold content_type_ok. rewrite Hct.
  rewrite (bool_decide_eq_false_2 _ Hne), (bool_decide_eq_false_2 _ Hnj).
  cbn [negb orb default state_of trace_of outcome_of fst snd].
  rewrite app_nil_r, cache_calls_request_trace. auto.
Qed.


(** X5.  When the manifest of a 2xx response is valid but [JSON.parse] throws on
    its non-empty [etag] header (a weak validator [W/...] is no JSON), [tryUpdate]
    throws that error after the manifest has been applied: the cache has been
    called and the stored signatures are the incoming ones, while the stored
    validator is the old one. *)
Theorem tryUpdate_etag_not_json
    (a : Agent) (fetch : string → RequestInit → result Response)
    (response : Response) (manifest : value) (ops : list Operation)
    (raw : string) (e : error) :
  constructed a →
  (∀ url init, fetch url init = Ok response) →
  status response ≠ 304 →
  ok response = true →
  content_type_ok response = true →
  json response = Ok manifest →
  valid_manifest manifest ops →
  headers_get response "etag" = Some raw →
  raw ≠ "" →
  JSON_parse raw = Throw e →
  let r := tryUpdate fetch a in
  outcome_of r = Throw e ∧
  lastSuccessfulETag (state_of r) = lastSuccessfulETag a ∧
  (∀ s, s ∈ lastOperationSignatures (state_of r) ↔ s ∈ signatures ops) ∧
  cache_calls (trace_of r) = cache_calls (trace_of (updateManifest manifest a)).
Proof.
  intros Hc Hfetch Hs Hok Hct Hjson Hm Hetag Hraw Hparse. cbv zeta.
  rewrite (tryUpdate_run fetch a Hc), Hfetch. cbv zeta. rewrite tryUpdate_response_run.
  apply Z.eqb_neq in Hs. rewrite Hs, Hok, Hct, Hjson. cbn [negb].
  rewrite (updateManifest_valid manifest ops (checked a) Hm).
  rewrite Hetag, (bool_decide_eq_false_2 _ Hraw), Hparse.
  cbn [state_of trace_of outcome_of fst snd].
  split; [reflexivity|]. split; [reflexivity|]. split.
  - intros s. cbn. rewrite elem_of_replacement_of, elem_of_nil. tauto.
  - rewrite cache_calls_app, cache_calls_request_trace.
    rewrite (updateManifest_valid manifest ops a Hm). reflexivity.
Qed.

(** X6.  When a valid manifest arrives in a response that has no [etag] header, or
    an empty one, [tryUpdate] returns [true] and keeps the validator it had: the
    next request still carries the validator of an older manifest. *)
Theorem tryUpdate_without_etag
    (a : Agent) (fetch : string → RequestInit → result Response)
    (response : Response) (manifest : value) (ops : list Operation) :
  constructed a →
  (∀ url init, fetch url init = Ok response) →
  status response ≠ 304 →
  ok response = true →
  content_type_ok response = true →
  json response = Ok manifest →
  valid_manifest manifest ops →
  headers_get response "etag" = None ∨ headers_get response "etag" = Some EmptyString →
  let r := tryUpdate fetch a in
  outcome_of r = Ok true ∧
  lastSuccessfulETag (state_of r) = lastSuccessfulETag a ∧
  headers (fetchOptions_of (state_of r)) = headers (fetchOptions_of a).
Proof.
  intros Hc Hfetch Hs Hok Hct Hjson Hm Hetag. cbv zeta.
  rewrite (tryUpdate_run fetch a Hc), Hfetch. cbv zeta. rewrite tryUpdate_response_run.
  apply Z.eqb_neq in Hs. rewrite Hs, Hok, Hct, Hjson. cbn [negb].
  rewrite (updateManifest_valid manifest ops (checked a) Hm).
  destruct Hetag as [-> | ->]; cbn; auto.
Qed.

(** X7.  [tryUpdate] stores a validator only on the path that returns [true]:
    whenever it throws or returns [false], the stored validator is the one it had
    before the call. *)
Theorem tryUpdate_keeps_etag_unless_true
    (a : Agent) (fetch : string → RequestInit → result Response) :
  constructed a →
  let r := tryUpdate fetch a in
  outcome_of r ≠ Ok true →
  lastSuccessfulETag (state_of r) = lastSuccessfulETag a.
Proof.
  intros Hc. cbv zeta. rewrite (tryUpdate_run fetch a Hc).
  destruct (fetch (manifestUrl_of a) (fetchOptions_of a)) as [response|err];
    [|reflexivity].
  cbv zeta. rewrite tryUpdate_response_run.
  destruct (status response =? 304)%Z; [reflexivity|].
  destruct (negb (ok response)); [reflexivity|].
  destruct (negb (content_type_ok response)); [reflexivity|].
  destruct (json response) as [manifest|e]; [|reflexivity].
  pose proof (etag_updateManifest manifest (checked a)) as Hframe.
  destruct (updateManifest manifest (checked a)) as [[a1 t1] [[]|e]];
    cbn [state_of fst snd] in Hframe; [|intros _; exact Hframe].
  destruct (headers_get response "etag") as [raw|].
  - destruct (bool_decide (raw = "")); [intros _; exact Hframe|].
    destruct (JSON_parse raw) as [etag|e]; [|intros _; exact Hframe].
    cbn [outcome_of snd]. intros Hn. exfalso. apply Hn. reflexivity.
  - intros _. exact Hframe.
Qed.

End Fetcher.

(** * More of the scheduler *)

Section SchedulerMore.

Context `{Platform}.

Lemma checkForUpdate_run now fetch now' a :
  requestInFlight a = None →
  checkForUpdate now fetch now' a =
    let c := checkForUpdate_chain fetch now' (set_requestInFlight (Some (Ok tt)) a) in
    (state_of c, trace_of (warnWhenLossOfSync now a) ++ trace_of c, outcome_of c).
Proof.
  intros Hn. unfold checkForUpdate.
  rewrite bind_run, checkForUpdate_begin_run, Hn. cbv beta iota zeta.
  cbn [checkForUpdate_settle].
  destruct (checkForUpdate_chain fetch now' _) as [[a2 t2] r]. reflexivity.
Qed.

Lemma warnWhenLossOfSync_after now last a :
  lastSuccessfulCheck a = Some last →
  trace_of (warnWhenLossOfSync now a) =
    if (SYNC_WARN_TIME_SECONDS * 1000 <? now - last)%Z then
      [ConsoleWarn
         ("WARNING: More than " +:+ pretty SYNC_WARN_TIME_SECONDS +:+
          " seconds has elapsed since a successful fetch of the manifest. (Last success: " +:+
          Date_toString last +:+ ")")]
    else [].
Proof.
  intros Hl. unfold warnWhenLossOfSync, timeSinceLastSuccessfulCheck.
  rewrite bind_run. cbn [this]. cbv beta iota zeta. rewrite Hl. cbn [number_gt].
  destruct (SYNC_WARN_TIME_SECONDS * 1000 <? now - last)%Z; reflexivity.
Qed.

(** X8.  A check that is fulfilled records the time of its settling, and from then
    on a call of [checkForUpdate] prints the loss-of-sync warning exactly when more
    than 60000 ms have passed since that time: at 60000 ms it prints nothing. *)
Theorem checkForUpdate_warns_after_a_minute
    (a : Agent) (now0 : Z) (fetch : string → RequestInit → result Response)
    (now' now : Z) (v : value) :
  requestInFlight a = None →
  outcome_of (checkForUpdate now0 fetch now' a) = Ok v →
  let a' := state_of (checkForUpdate now0 fetch now' a) in
  lastSuccessfulCheck a' = Some now' ∧
  ((now - now' ≤ 60000)%Z → trace_of (checkForUpdate_begin now a') = []) ∧
  ((60000 < now - now')%Z →
   ∃ msg, trace_of (checkForUpdate_begin now a') = [ConsoleWarn msg]).
Proof.
  intros Hn. rewrite (checkForUpdate_run now0 fetch now' a Hn). cbv zeta.
  rewrite checkForUpdate_chain_run.
  destruct (tryUpdate fetch _) as [[a1 t1] [b|e]];
    cbn [state_of trace_of outcome_of fst snd]; [|discriminate].
  intros _. split; [reflexivity|].
  rewrite checkForUpdate_begin_run. cbn [trace_of fst snd].
  rewrite (warnWhenLossOfSync_after now now') by reflexivity.
  change (SYNC_WARN_TIME_SECONDS * 1000) with 60000.
  split; intros Hlt.
  - rewrite (proj2 (Z.ltb_ge _ _)) by lia. reflexivity.
  - rewrite (proj2 (Z.ltb_lt _ _)) by lia. eauto.
Qed.

(** X9.  A check that is rejected leaves the time of the last success as it was:
    only a fulfilled check resets the staleness. *)
Theorem checkForUpdate_failure_keeps_last_success
    (a : Agent) (now : Z) (fetch : string → RequestInit → result Response)
    (now' : Z) (err : error) :
  requestInFlight a = None →
  outcome_of (checkForUpdate now fetch now' a) = Throw err →
  lastSuccessfulCheck (state_of (checkForUpdate now fetch now' a)) = lastSuccessfulCheck a.
Proof.
  intros Hn. rewrite (checkForUpdate_run now fetch now' a Hn). cbv zeta.
  rewrite checkForUpdate_chain_run.
  assert (Hf : frame lastSuccessfulCheck (λ _, false) (tryUpdate fetch))
    by (apply frame_tryUpdate; reflexivity).
  destruct (Hf (set_requestInFlight (Some (Ok tt)) a)) as [Hframe _]. clear Hf.
  destruct (tryUpdate fetch _) as [[a1 t1] [b|e]];
    cbn [state_of trace_of outcome_of fst snd] in Hframe |- *; [discriminate|].
  intros _. exact Hframe.
Qed.

Lemma start_first_pulse_run now fetch now' a :
  start_first_pulse now fetch now' a =
    match checkForUpdate now fetch now' a with
    | (a1, t1, Ok _) => (a1, t1, Ok tt)
    | (a1, t1, Throw err) =>
        (a1, t1 ++ [ConsoleError [start_banner; message_or_error err]], Ok tt)
    end.
Proof.
  unfold start_first_pulse, try_catch. rewrite bind_run.
  destruct (checkForUpdate now fetch now' a) as [[a1 t1] [v|e]];
    run_monad; rewrite ?app_nil_r; reflexivity.
Qed.

Lemma tick_run now fetch now' a :
  tick now fetch now' a =
    match checkForUpdate now fetch now' a with
    | (a1, t1, Ok _) => (a1, t1, Ok tt)
    | (a1, t1, Throw err) => (a1, t1 ++ [ConsoleError [message_or_error err]], Ok tt)
    end.
Proof.
  unfold tick, try_catch. rewrite bind_run.
  destruct (checkForUpdate now fetch now' a) as [[a1 t1] [v|e]];
    run_monad; rewrite ?app_nil_r; reflexivity.
Qed.

Lemma frame_options_checkForUpdate now fetch now' :
  frame (λ a, (timer a, options a)) (λ _, false) (checkForUpdate now fetch now').
Proof. apply frame_checkForUpdate; reflexivity. Qed.

Lemma start_timer_run fresh a :
  start_timer fresh a =
    match timer a with
    | Some t => (a, [], Ok tt)
    | None => (set_timer (Some fresh) a, [SetInterval fresh (get_pollSeconds a * 1000)], Ok tt)
    end.
Proof.
  unfold start_timer. rewrite bind_run. cbn [this]. cbv beta iota zeta.
  destruct a as [[t|] ? ? ? ? ? ? ?]; reflexivity.
Qed.

(** X10.  [start] never throws, whatever its first check does: an error of the
    first check is printed with [console.error], after the banner, and the timer is
    armed all the same, with the period [pollSeconds() * 1000]; afterwards the
    [timer] field is set. *)
Theorem start_survives_a_failed_first_check
    (a : Agent) (now : Z) (fetch : string → RequestInit → result Response)
    (now' : Z) (fresh : TimerId) :
  let r := start now fetch now' fresh a in
  outcome_of r = Ok tt ∧
  timer (state_of r) = Some (default fresh (timer a)) ∧
  (timer a = None →
   ∃ t, trace_of r = t ++ [SetInterval fresh (get_pollSeconds a * 1000)]) ∧
  (∀ err, outcome_of (checkForUpdate now fetch now' a) = Throw err →
          ConsoleError [start_banner; message_or_error err] ∈ trace_of r).
Proof.
  cbv zeta. unfold start. rewrite bind_run, start_first_pulse_run.
  destruct (frame_options_checkForUpdate now fetch now' a) as [Hframe _].
  assert (Harm : ∀ a1, timer a1 = timer a → options a1 = options a →
            start_timer fresh a1 =
              (match timer a with Some _ => a1 | None => set_timer (Some fresh) a1 end,
               match timer a with
               | Some _ => []
               | None => [SetInterval fresh (get_pollSeconds a * 1000)]
               end, Ok tt)).
  { intros a1 Ht Ho. rewrite start_timer_run, Ht. unfold get_pollSeconds. rewrite Ho.
    destruct (timer a); reflexivity. }
  destruct (checkForUpdate now fetch now' a) as [[a1 t1] [v|e]];
    cbn [state_of fst snd] in Hframe; injection Hframe as Ht Ho;
    cbv beta iota zeta; rewrite (Harm a1 Ht Ho);
    cbn [state_of trace_of outcome_of fst snd].
  - split; [reflexivity|]. split; [destruct (timer a); [exact Ht|reflexivity]|].
    split; [intros ->; eauto|discriminate].
  - split; [reflexivity|]. split; [destruct (timer a); [exact Ht|reflexivity]|].
    split; [intros ->; eauto|].
    intros err [= <-]. rewrite !elem_of_app, list_elem_of_singleton. auto.
Qed.

(** X11.  A firing of the interval never throws: an error of its check is printed
    with [console.error] and goes no further, so it cannot stop the timer. *)
Theorem tick_never_throws
    (a : Agent) (now : Z) (fetch : string → RequestInit → result Response)
    (now' : Z) :
  let r := tick now fetch now' a in
  outcome_of r = Ok tt ∧
  state_of r = state_of (checkForUpdate now fetch now' a) ∧
  timers_armed (trace_of r) = [] ∧
  filter is_timer_effect (trace_of r) = [] ∧
  (∀ err, outcome_of (checkForUpdate now fetch now' a) = Throw err →
          trace_of r = trace_of (checkForUpdate now fetch now' a) ++
                       [ConsoleError [message_or_error err]]).
Proof.
  cbv zeta.
  destruct (frame_timer_tick now fetch now' a) as [_ Hquiet].
  destruct (no_timer_effect _ Hquiet) as [Harm _].
  rewrite tick_run in *.
  destruct (checkForUpdate now fetch now' a) as [[a1 t1] [v|e]];
    cbn [state_of trace_of outcome_of fst snd] in *;
    repeat split; try assumption; try discriminate.
  intros err [= <-]. reflexivity.
Qed.

(** X12.  [stop] changes no field: the [timer] field stays set after the interval
    has been cleared.  A [start] after a [stop] therefore arms no timer, and the
    agent polls no more; and a [stop] before any [start] does nothing. *)
Theorem stop_is_final
    (a : Agent) (now : Z) (fetch : string → RequestInit → result Response)
    (now' : Z) (fresh : TimerId) :
  state_of (stop a) = a ∧
  outcome_of (stop a) = Ok tt ∧
  trace_of (stop a) =
    match timer a with
    | Some t => [ClearInterval t]
    | None => []
    end ∧
  (is_Some (timer a) →
   timers_armed (trace_of (start now fetch now' fresh (state_of (stop a)))) = []).
Proof.
  assert (Hstop : stop a = (a, match timer a with
                               | Some t => [ClearInterval t]
                               | None => []
                               end, Ok tt)).
  { unfold stop. rewrite bind_run. cbn [this]. cbv beta iota zeta.
    destruct (timer a); reflexivity. }
  rewrite Hstop. cbn [state_of trace_of outcome_of fst snd].
  repeat split. intros [t Ht].
  pose proof (start_run now fetch now' fresh a) as Hrun.
  unfold drop_outcome in Hrun. injection Hrun as _ ->.
  destruct (frame_timer_start_first_pulse now fetch now' a) as [Hst Htr].
  apply no_timer_effect in Htr as [Harm _].
  rewrite timers_armed_app, Harm, start_timer_run, Hst, Ht. reflexivity.
Qed.




End SchedulerMore.

(** * What holds along every run *)

Section Respects.

Context (R : Agent → list effect → Agent → Prop) `{!Composable R}.

Lemma respects_ret {A} (x : A) : respects R (mret x).
Proof. intros a. apply composable_nil. Qed.

Lemma respects_throw {A} e : respects R (@throw A e).
Proof. intros a. apply composable_nil. Qed.

Lemma respects_lift {A} (r : result A) : respects R (lift r).
Proof. intros a. apply composable_nil. Qed.

Lemma respects_this : respects R this.
Proof. intros a. apply composable_nil. Qed.

Lemma respects_modify g : (∀ a, R a [] (g a)) → respects R (modify g).
Proof. intros Hg a. apply Hg. Qed.

Lemma respects_emit e : (∀ a, R a [e] a) → respects R (emit e).
Proof. intros He a. apply He. Qed.

Lemma respects_bind {A B} (m : M A) (k : A → M B) :
  respects R m → (∀ x, respects R (k x)) → respects R (m ≫= k).
Proof.
  intros Hm Hk a. rewrite bind_run. specialize (Hm a).
  destruct (m a) as [[a1 t1] [x|e]]; cbn [state_of trace_of fst snd] in Hm; [|exact Hm].
  specialize (Hk x a1). destruct (k x a1) as [[a2 t2] r].
  cbn [state_of trace_of fst snd] in Hk |- *.
  exact (composable_app _ _ _ _ _ Hm Hk).
Qed.

Lemma respects_try_catch {A} (m : M A) (h : error → M A) :
  respects R m → (∀ e, respects R (h e)) → respects R (try_catch m h).
Proof.
  intros Hm Hh a. unfold try_catch. specialize (Hm a).
  destruct (m a) as [[a1 t1] [x|e]]; cbn [state_of trace_of fst snd] in Hm; [exact Hm|].
  specialize (Hh e a1). destruct (h e a1) as [[a2 t2] r].
  cbn [state_of trace_of fst snd] in Hh |- *.
  exact (composable_app _ _ _ _ _ Hm Hh).
Qed.

Lemma respects_for_of {A S} (xs : list A) (body : A → S → M S) :
  (∀ x s, respects R (body x s)) → ∀ s, respects R (for_of xs body s).
Proof.
  intros Hbody. induction xs as [|x xs IH]; intros s; cbn [for_of].
  - apply respects_ret.
  - apply respects_bind; [apply Hbody|exact IH].
Qed.

End Respects.

(** Takes a method apart along its binds, branches and loops; what is assumed of
    a piece is used where the piece occurs. *)
Ltac respects_step :=
  match goal with
  | |- respects _ _ => solve [auto]
  | |- ∀ _, _ => intro
  | |- respects _ (_ ≫= _) => refine (respects_bind _ _ _ _ _)
  | |- respects _ (mret _) => refine (respects_ret _ _)
  | |- respects _ (throw _) => refine (respects_throw _ _)
  | |- respects _ (lift _) => refine (respects_lift _ _)
  | |- respects _ this => refine (respects_this _)
  | |- respects _ (modify _) => apply respects_modify; intros; solve [auto]
  | |- respects _ (emit _) => apply respects_emit; intros; solve [auto]
  | |- respects _ (try_catch _ _) => refine (respects_try_catch _ _ _ _ _)
  | |- respects _ (for_of _ _ _) => refine (respects_for_of _ _ _ _ _)
  | |- respects _ (if ?b then _ else _) => destruct b
  | |- respects _ (match ?x with _ => _ end) => destruct x
  | |- respects _ _ => progress cbv zeta
  end.

Ltac respects_tac := repeat respects_step.

Section RespectsReconciler.

Context (R : Agent → list effect → Agent → Prop) `{!Composable R}.

Hypothesis R_maybeLog : ∀ msg, respects R (maybeLog msg).
Hypothesis R_CacheSet : ∀ k v a, R a [CacheSet k v] a.
Hypothesis R_CacheDelete : ∀ k a, R a [CacheDelete k] a.
Hypothesis R_lastOperationSignatures : ∀ s a, R a [] (set_lastOperationSignatures s a).

Lemma respects_updateManifest m : respects R (updateManifest m).
Proof.
  unfold updateManifest. respects_tac.
Qed.

End RespectsReconciler.

Section RespectsFetcher.

Context `{Platform} (R : Agent → list effect → Agent → Prop) `{!Composable R}.

Hypothesis R_updateManifest : ∀ m, respects R (updateManifest m).
Hypothesis R_getHashedServiceId : respects R getHashedServiceId.
Hypothesis R_maybeLog : ∀ msg, respects R (maybeLog msg).
Hypothesis R_Fetch : ∀ url init a, R a [Fetch url init] a.
Hypothesis R_timesChecked : ∀ n a, R a [] (set_timesChecked n a).
Hypothesis R_lastSuccessfulETag : ∀ e a, R a [] (set_lastSuccessfulETag e a).

Lemma respects_tryUpdate_response response : respects R (tryUpdate_response response).
Proof. unfold tryUpdate_response. respects_tac. Qed.

Lemma respects_tryUpdate fetch : respects R (tryUpdate fetch).
Proof. unfold tryUpdate. respects_tac. apply respects_tryUpdate_response. Qed.

End RespectsFetcher.

Section RespectsScheduler.

Context `{Platform} (R : Agent → list effect → Agent → Prop) `{!Composable R}.

Hypothesis R_updateManifest : ∀ m, respects R (updateManifest m).
Hypothesis R_tryUpdate : ∀ fetch, respects R (tryUpdate fetch).
Hypothesis R_ConsoleWarn : ∀ s a, R a [ConsoleWarn s] a.
Hypothesis R_ConsoleError : ∀ args a, R a [ConsoleError args] a.
Hypothesis R_SetInterval : ∀ id ms a, R a [SetInterval id ms] a.
Hypothesis R_ClearInterval : ∀ id a, R a [ClearInterval id] a.
Hypothesis R_requestInFlight : ∀ p a, R a [] (set_requestInFlight p a).
Hypothesis R_lastSuccessfulCheck : ∀ d a, R a [] (set_lastSuccessfulCheck d a).
Hypothesis R_timer : ∀ t a, R a [] (set_timer t a).

Lemma respects_checkForUpdate_begin now : respects R (checkForUpdate_begin now).
Proof. unfold checkForUpdate_begin, warnWhenLossOfSync. respects_tac. Qed.

Lemma respects_checkForUpdate_chain fetch now : respects R (checkForUpdate_chain fetch now).
Proof. unfold checkForUpdate_chain, resetRequestInFlight. respects_tac. Qed.

Lemma respects_checkForUpdate now fetch now' : respects R (checkForUpdate now fetch now').
Proof.
  unfold checkForUpdate, checkForUpdate_settle. respects_tac;
    [apply respects_checkForUpdate_begin|apply respects_checkForUpdate_chain].
Qed.

Lemma respects_start_timer fresh : respects R (start_timer fresh).
Proof. unfold start_timer. respects_tac. Qed.

Lemma respects_start now fetch now' fresh : respects R (start now fetch now' fresh).
Proof.
  unfold start, start_first_pulse. respects_tac;
    [apply respects_checkForUpdate|apply respects_start_timer].
Qed.

Lemma respects_tick now fetch now' : respects R (tick now fetch now').
Proof. unfold tick. respects_tac. apply respects_checkForUpdate. Qed.

Lemma respects_stop : respects R stop.
Proof. unfold stop. respects_tac. Qed.

Lemma respects_run_step s a : R a (run_step s a).2 (run_step s a).1.
Proof.
  destruct s; cbn [run_step]; unfold drop_outcome; cbn [fst snd].
  - apply respects_checkForUpdate_begin.
  - apply respects_checkForUpdate_chain.
  - apply respects_start_timer.
  - apply respects_start.
  - apply respects_tick.
  - apply respects_stop.
  - apply R_updateManifest.
Qed.

(** A relation that every piece respects holds of every run. *)
Lemma respects_run_steps ss : ∀ a, R a (run_steps ss a).2 (run_steps ss a).1.
Proof.
  induction ss as [|s ss IH]; intros a; cbn [run_steps].
  - apply composable_nil.
  - pose proof (respects_run_step s a) as Hs.
    destruct (run_step s a) as [a1 t1]. cbn [fst snd] in Hs.
    specialize (IH a1). destruct (run_steps ss a1) as [a2 t2]. cbn [fst snd] in IH |- *.
    exact (composable_app _ _ _ _ _ Hs IH).
Qed.

End RespectsScheduler.

Lemma respects_of_frame {A F} (f : Agent → F) (P : effect → bool)
    (R : Agent → list effect → Agent → Prop) (m : M A) :
  frame f P m →
  (∀ a t b, f b = f a → filter P t = [] → R a t b) →
  respects R m.
Proof. intros Hm HR a. destruct (Hm a) as [Hf HP]. apply HR; assumption. Qed.

Lemma filter_nil_Forall {A} (P : A → bool) (l : list A) :
  filter P l = [] ↔ Forall (λ x, P x = false) l.
Proof.
  induction l as [|x l IH]; [split; [constructor|reflexivity]|].
  rewrite filter_cons, Forall_cons, <- IH.
  destruct (decide (P x)) as [HP|HP].
  - split; [discriminate|]. intros [Hx _]. rewrite Hx in HP. destruct HP.
  - split; [|tauto]. intros Hl. split; [|exact Hl].
    destruct (P x); [exfalso; apply HP; exact I|reflexivity].
Qed.

Section AlongEveryRun.

Context `{Platform}.

(** ** The options *)

#[local] Instance keeps_options_composable : Composable keeps_options.
Proof. split; unfold keeps_options; intros; congruence. Qed.

Lemma keeps_options_frame {A} (m : M A) :
  frame options (λ _, false) m → respects keeps_options m.
Proof. intros Hm. apply (respects_of_frame options (λ _, false)); auto. Qed.

Lemma keeps_options_run ss a : keeps_options a (run_steps ss a).2 (run_steps ss a).1.
Proof.
  apply (respects_run_steps keeps_options); try (intros; reflexivity).
  - intros m. apply keeps_options_frame, frame_updateManifest; reflexivity.
  - intros fetch. apply keeps_options_frame, frame_tryUpdate; reflexivity.
Qed.

(** X14.  No call on the agent ever changes its options: after any run they are
    the ones the constructor was given, and an agent that passed the checks of the
    constructor still passes them. *)
Theorem options_never_change (a : Agent) (ss : list step) :
  options (run_steps ss a).1 = options a ∧
  (constructed a → constructed (run_steps ss a).1).
Proof.
  pose proof (keeps_options_run ss a) as Ho. unfold keeps_options in Ho.
  split; [exact Ho|]. apply constructed_options. symmetry. exact Ho.
Qed.

(** ** The debug option *)

#[local] Instance quiet_unless_debug_composable : Composable quiet_unless_debug.
Proof.
  split; unfold quiet_unless_debug.
  - intros a. split; reflexivity.
  - intros a t1 b t2 c [Ho1 Hq1] [Ho2 Hq2]. split; [congruence|].
    intros Hd. rewrite filter_app, Hq1, Hq2; [reflexivity|congruence|assumption].
Qed.

Lemma quiet_unless_debug_maybeLog msg : respects quiet_unless_debug (maybeLog msg).
Proof.
  intros a. rewrite maybeLog_run. cbn [state_of trace_of fst snd].
  split; [reflexivity|]. unfold log_line.
  destruct (debug (options a)) as [[|]|]; intros Hd; [contradiction|reflexivity..].
Qed.

Lemma quiet_unless_debug_run ss a :
  quiet_unless_debug a (run_steps ss a).2 (run_steps ss a).1.
Proof.
  assert (Hum : ∀ m, respects quiet_unless_debug (updateManifest m)).
  { intros m. apply (respects_updateManifest quiet_unless_debug);
      [exact quiet_unless_debug_maybeLog|intros; split; reflexivity..]. }
  apply (respects_run_steps quiet_unless_debug);
    try (intros; split; reflexivity); [exact Hum|].
  intros fetch. apply (respects_tryUpdate quiet_unless_debug);
    [exact Hum| |exact quiet_unless_debug_maybeLog|intros; split; reflexivity..].
  unfold getHashedServiceId. respects_tac; apply respects_modify; intros; split; reflexivity.
Qed.

(** X15.  With the [debug] option absent or false the agent never calls
    [console.debug], whatever is done with it. *)
Theorem debug_off_is_silent (a : Agent) (ss : list step) (msg : string) :
  debug (options a) ≠ Some true →
  ConsoleDebug msg ∉ (run_steps ss a).2.
Proof.
  intros Hd Hin. destruct (quiet_unless_debug_run ss a) as [_ Hq].
  specialize (Hq Hd). apply filter_nil_Forall in Hq.
  rewrite Forall_forall in Hq. specialize (Hq _ Hin). discriminate Hq.
Qed.

(** ** The namespace of the keys *)

#[local] Instance only_namespaced_composable : Composable only_namespaced.
Proof.
  split; unfold only_namespaced.
  - intros a. constructor.
  - intros a t1 b t2 c H1 H2. apply Forall_app. auto.
Qed.

Lemma only_namespaced_one (e : effect) a : namespaced_call e → only_namespaced a [e] a.
Proof. intros He. constructor; [exact He|constructor]. Qed.

Lemma only_namespaced_maybeLog msg : respects only_namespaced (maybeLog msg).
Proof.
  intros a. rewrite maybeLog_run. unfold log_line.
  destruct (debug (options a)) as [[|]|]; repeat constructor.
Qed.

Lemma only_namespaced_updateManifest m : respects only_namespaced (updateManifest m).
Proof.
  pose proof only_namespaced_maybeLog.
  unfold updateManifest. respects_tac;
    try (apply respects_modify; intros; constructor);
    apply respects_emit; intros; apply only_namespaced_one; cbn; eauto.
Qed.

Lemma only_namespaced_run ss a :
  only_namespaced a (run_steps ss a).2 (run_steps ss a).1.
Proof.
  apply (respects_run_steps only_namespaced);
    try (intros; first [apply only_namespaced_one; exact I|constructor]);
    [exact only_namespaced_updateManifest|].
  intros fetch. apply (respects_tryUpdate only_namespaced);
    [exact only_namespaced_updateManifest| |exact only_namespaced_maybeLog
    |intros; first [apply only_namespaced_one; exact I|constructor]..].
  unfold getHashedServiceId. respects_tac; apply respects_modify; intros; constructor.
Qed.

Lemma cache_after_other_key t : ∀ (c : gmap string string) k,
  Forall namespaced_call t →
  (∀ s, k ≠ getCacheKey s) →
  cache_after t c !! k = c !! k.
Proof.
  induction t as [|e t IH]; intros c k Hall Hk; [reflexivity|].
  inversion Hall as [|? ? He Ht]; subst.
  change (cache_after (e :: t) c) with (cache_after t (cache_step c e)).
  rewrite (IH _ k Ht Hk). destruct e; cbn [cache_step]; try reflexivity.
  - destruct He as [s ->]. apply lookup_insert_ne. intros Heq. exact (Hk s (eq_sym Heq)).
  - destruct He as [s ->]. apply lookup_delete_ne. intros Heq. exact (Hk s (eq_sym Heq)).
Qed.

(** X16.  Whatever is done with the agent, the only keys it sets or deletes in
    the cache are keys of the form ["apq:" + signature]: an entry of the store
    under any other key is never changed. *)
Theorem agent_only_touches_its_namespace
    (a : Agent) (ss : list step) (c : gmap string string) (k : string) :
  (∀ s, k ≠ "apq:" +:+ s) →
  cache_after (run_steps ss a).2 c !! k = c !! k ∧
  (∀ v, CacheSet k v ∉ (run_steps ss a).2) ∧
  CacheDelete k ∉ (run_steps ss a).2.
Proof.
  intros Hk. pose proof (only_namespaced_run ss a) as Hall. unfold only_namespaced in Hall.
  split; [apply cache_after_other_key; assumption|].
  rewrite Forall_forall in Hall.
  split; [intros v Hin|intros Hin]; destruct (Hall _ Hin) as [s Hs]; exact (Hk s Hs).
Qed.

(** ** The URL of the manifest *)

Lemma hashed_of_checked a : hashed_of (checked a) = hashed_of a.
Proof.
  unfold checked, hashed_of, serviceID_of.
  cbn [hashedServiceId options set_timesChecked set_hashedServiceId].
  destruct (hashedServiceId a) as [h|]; repeat case_bool_decide; congruence.
Qed.

#[local] Instance same_url_composable : Composable same_url.
Proof.
  split; unfold same_url.
  - intros a _. repeat split. constructor.
  - intros a t1 b t2 c H1 H2 Hc. destruct (H1 Hc) as (Ho1 & Hh1 & Hf1).
    assert (Hcb : constructed b) by (apply (constructed_options a); [symmetry|]; assumption).
    destruct (H2 Hcb) as (Ho2 & Hh2 & Hf2).
    split; [congruence|]. split; [congruence|].
    apply Forall_app. split; [exact Hf1|].
    eapply Forall_impl; [exact Hf2|]. intros e He url init Heq.
    rewrite (He url init Heq). unfold manifestUrl_of. congruence.
Qed.

Lemma same_url_quiet a t b :
  (hashedServiceId b, options b) = (hashedServiceId a, options a) →
  filter is_fetch t = [] → same_url a t b.
Proof.
  intros [= Hh Ho] Hf _. split; [exact Ho|]. split.
  - unfold hashed_of, serviceID_of. rewrite Hh, Ho. reflexivity.
  - apply filter_nil_Forall in Hf. eapply Forall_impl; [exact Hf|].
    intros e He url init ->. discriminate He.
Qed.

Lemma same_url_tryUpdate fetch : respects same_url (tryUpdate fetch).
Proof.
  intros a Hc. rewrite (tryUpdate_run fetch a Hc).
  assert (Hreq : Forall (λ e, ∀ url init, e = Fetch url init → url = manifestUrl_of a)
                   (request_trace a)).
  { unfold request_trace, log_line. apply Forall_app. split.
    - destruct (debug (options a)) as [[|]|]; repeat constructor; discriminate.
    - constructor; [|constructor]. intros url init [= <- _]. reflexivity. }
  destruct (fetch (manifestUrl_of a) (fetchOptions_of a)) as [response|err].
  - cbv zeta. cbn [state_of trace_of fst snd].
    assert (Hf : frame (λ b, (hashedServiceId b, options b)) is_fetch
                   (tryUpdate_response response))
      by (apply frame_tryUpdate_response; reflexivity).
    destruct (Hf (checked a)) as [Hst Hq].
    assert (Hcc : constructed (checked a))
      by (apply (constructed_options a); [reflexivity|exact Hc]).
    destruct (same_url_quiet _ _ _ Hst Hq Hcc) as (Ho & Hh & Hall).
    split; [exact Ho|]. split; [rewrite Hh; apply hashed_of_checked|].
    apply Forall_app. split; [exact Hreq|].
    eapply Forall_impl; [exact Hall|]. intros e He url init Heq.
    rewrite (He url init Heq). unfold manifestUrl_of. rewrite hashed_of_checked. reflexivity.
  - cbn [state_of trace_of fst snd]. split; [reflexivity|].
    split; [apply hashed_of_checked|exact Hreq].
Qed.

Lemma same_url_run ss a : same_url a (run_steps ss a).2 (run_steps ss a).1.
Proof.
  apply (respects_run_steps same_url);
    try (intros; apply same_url_quiet; reflexivity).
  - intros m. apply (respects_of_frame (λ b, (hashedServiceId b, options b)) is_fetch).
    + apply frame_updateManifest; reflexivity.
    + intros. apply same_url_quiet; assumption.
  - exact same_url_tryUpdate.
Qed.

(** X17.  The hash of the service identifier is computed once and kept: every
    request the agent ever issues goes to the one URL computed from the options it
    was constructed with. *)
Theorem every_request_has_the_same_url
    (a : Agent) (ss : list step) (url : string) (init : RequestInit) :
  constructed a →
  Fetch url init ∈ (run_steps ss a).2 →
  url = manifestUrl_of a ∧
  manifestUrl_of (run_steps ss a).1 = manifestUrl_of a.
Proof.
  intros Hc Hin. destruct (same_url_run ss a Hc) as (Ho & Hh & Hall).
  rewrite Forall_forall in Hall. split; [exact (Hall _ Hin url init eq_refl)|].
  unfold manifestUrl_of. congruence.
Qed.

(** ** The counter of checks *)

#[local] Instance counts_requests_composable : Composable counts_requests.
Proof.
  split; unfold counts_requests.
  - intros a _. split; [reflexivity|]. cbn. lia.
  - intros a t1 b t2 c H1 H2 Hc. destruct (H1 Hc) as [Ho1 Hn1].
    assert (Hcb : constructed b) by (apply (constructed_options a); [symmetry|]; assumption).
    destruct (H2 Hcb) as [Ho2 Hn2]. split; [congruence|].
    rewrite fetches_app, length_app. lia.
Qed.

Lemma counts_requests_quiet a t b :
  (_timesChecked b, options b) = (_timesChecked a, options a) →
  filter is_fetch t = [] → counts_requests a t b.
Proof.
  intros [= Hn Ho] Hf _. split; [exact Ho|]. unfold fetches. rewrite Hf, Hn. cbn. lia.
Qed.

Lemma counts_requests_tryUpdate fetch : respects counts_requests (tryUpdate fetch).
Proof.
  intros a Hc. rewrite (tryUpdate_run fetch a Hc).
  destruct (fetch (manifestUrl_of a) (fetchOptions_of a)) as [response|err].
  - cbv zeta. cbn [state_of trace_of fst snd].
    assert (Hf : frame (λ b, (_timesChecked b, options b)) is_fetch
                   (tryUpdate_response response))
      by (apply frame_tryUpdate_response; reflexivity).
    destruct (Hf (checked a)) as [[= Hn Ho] Hq].
    split; [exact Ho|]. rewrite fetches_app, fetches_request_trace. unfold fetches.
    rewrite Hq, Hn. cbn. lia.
  - cbn [state_of trace_of fst snd]. split; [reflexivity|].
    rewrite fetches_request_trace. cbn. lia.
Qed.

Lemma counts_requests_run ss a :
  counts_requests a (run_steps ss a).2 (run_steps ss a).1.
Proof.
  apply (respects_run_steps counts_requests);
    try (intros; apply counts_requests_quiet; reflexivity).
  - intros m. apply (respects_of_frame (λ b, (_timesChecked b, options b)) is_fetch).
    + apply frame_updateManifest; reflexivity.
    + intros. apply counts_requests_quiet; assumption.
  - exact counts_requests_tryUpdate.
Qed.

(** X18.  The diagnostic counter [_timesChecked] counts the requests: after any
    run of a constructed agent it has risen by exactly the number of calls of
    [fetch] the agent has made. *)
Theorem timesChecked_counts_requests (a : Agent) (ss : list step) :
  constructed a →
  _timesChecked (run_steps ss a).1 =
    _timesChecked a + Z.of_nat (length (fetches (run_steps ss a).2)).
Proof. intros Hc. apply (counts_requests_run ss a Hc). Qed.

End AlongEveryRun.

(** * More of the reconciler, on the store *)

Lemma cache_after_app t1 t2 (c : gmap string string) :
  cache_after (t1 ++ t2) c = cache_after t2 (cache_after t1 c).
Proof. unfold cache_after. apply foldl_app. Qed.

Lemma cache_after_cache_calls t : ∀ c : gmap string string,
  cache_after t c = cache_after (cache_calls t) c.
Proof.
  induction t as [|e t IH]; intros c; [reflexivity|].
  unfold cache_calls. rewrite filter_cons. fold (cache_calls t).
  destruct e; cbn [is_cache_call]; cbn; apply IH.
Qed.

(** A key that no call of a trace names keeps its entry. *)
Lemma cache_after_untouched t : ∀ (c : gmap string string) k,
  (∀ v, CacheSet k v ∉ t) → CacheDelete k ∉ t →
  cache_after t c !! k = c !! k.
Proof.
  induction t as [|e t IH]; intros c k Hset Hdel; [reflexivity|].
  change (cache_after (e :: t) c) with (cache_after t (cache_step c e)).
  rewrite IH.
  - destruct e as [k' v'|k'|?|?|?|? ?|? ?|?]; cbn [cache_step]; try reflexivity.
    + apply lookup_insert_ne. intros ->. apply (Hset v'). left.
    + apply lookup_delete_ne. intros ->. apply Hdel. left.
  - intros v Hin. apply (Hset v). right. exact Hin.
  - intros Hin. apply Hdel. right. exact Hin.
Qed.

(** X19.  When a signature that is not stored occurs several times in a manifest,
    the cache is set once for each occurrence, in order, so the document the store
    ends with under its key is the one of the last occurrence. *)
Theorem updateManifest_last_document_wins
    (a : Agent) (m : value) (ops pre post : list Operation) (s d : string)
    (c : gmap string string) :
  valid_manifest m ops →
  ops = pre ++ mkOperation s d :: post →
  s ∉ signatures post →
  s ∉ lastOperationSignatures a →
  cache_after (trace_of (updateManifest m a)) c !! getCacheKey s = Some d.
Proof.
  intros Hm -> Hpost Hnew.
  rewrite cache_after_cache_calls, (cache_calls_updateManifest m _ a Hm).
  rewrite filter_app, filter_cons, decide_True by exact Hnew.
  rewrite fmap_app, fmap_cons, <- app_assoc. cbn [signature document].
  rewrite cache_after_app. cbn [app].
  match goal with
  | |- cache_after (?e :: ?t) ?c0 !! _ = _ =>
      change (cache_after (e :: t) c0) with (cache_after t (cache_step c0 e))
  end.
  rewrite cache_after_untouched.
  - cbn [cache_step]. apply lookup_insert_eq.
  - intros v. rewrite elem_of_app, !list_elem_of_fmap.
    intros [(op & Heq & [_ Hop]%list_elem_of_filter)|(s' & [=] & _)].
    assert (Hk : getCacheKey s = getCacheKey (signature op)) by congruence.
    apply getCacheKey_inj in Hk. subst s. apply Hpost, list_elem_of_fmap. eauto.
  - rewrite elem_of_app, !list_elem_of_fmap.
    intros [(op & [=] & _)|(s' & Heq & [_ Hs']%list_elem_of_filter)].
    assert (Hk : getCacheKey s = getCacheKey s') by congruence.
    apply getCacheKey_inj in Hk. subst s'. contradiction.
Qed.

(** X20.  A signature that is stored and occurs in the incoming manifest keeps the
    entry the store has under its key, whatever document the manifest gives it: a
    signature published again with another document is not refreshed. *)
Theorem updateManifest_keeps_stored_document
    (a : Agent) (m : value) (ops : list Operation) (s : string)
    (c : gmap string string) :
  valid_manifest m ops →
  s ∈ lastOperationSignatures a →
  s ∈ signatures ops →
  cache_after (trace_of (updateManifest m a)) c !! getCacheKey s = c !! getCacheKey s.
Proof.
  intros Hm Hknown Hin.
  rewrite cache_after_cache_calls, (cache_calls_updateManifest m ops a Hm).
  apply cache_after_untouched.
  - intros v. rewrite elem_of_app, !list_elem_of_fmap.
    intros [(op & Heq & [Hnew _]%list_elem_of_filter)|(s' & [=] & _)].
    assert (Hk : getCacheKey s = getCacheKey (signature op)) by congruence.
    apply getCacheKey_inj in Hk. subst s. contradiction.
  - rewrite elem_of_app, !list_elem_of_fmap.
    intros [(op & [=] & _)|(s' & Heq & [Hgone _]%list_elem_of_filter)].
    assert (Hk : getCacheKey s = getCacheKey s') by congruence.
    apply getCacheKey_inj in Hk. subst s'. contradiction.
Qed.

Lemma filter_all {A} (P : A → Prop) `{∀ x, Decision (P x)} (l : list A) :
  (∀ x, x ∈ l → P x) → filter P l = l.
Proof.
  induction l as [|x l IH]; intros Hl; [reflexivity|].
  rewrite filter_cons, decide_True by (apply Hl; left).
  f_equal. apply IH. intros y Hy. apply Hl. right. exact Hy.
Qed.

(** X21.  A valid manifest with no operations empties the registry: the key of
    every stored signature is deleted, in the order they were stored, nothing is
    set, and no signature is stored afterwards. *)
Theorem updateManifest_empty_manifest (a : Agent) (m : value) :
  valid_manifest m [] →
  cache_calls (trace_of (updateManifest m a)) =
    (λ s, CacheDelete (getCacheKey s)) <$> lastOperationSignatures a ∧
  lastOperationSignatures (state_of (updateManifest m a)) = [] ∧
  (∀ (c : gmap string string) s, s ∈ lastOperationSignatures a →
     cache_after (trace_of (updateManifest m a)) c !! getCacheKey s = None).
Proof.
  intros Hm.
  assert (Hcalls : cache_calls (trace_of (updateManifest m a)) =
            (λ s, CacheDelete (getCacheKey s)) <$> lastOperationSignatures a).
  { rewrite (cache_calls_updateManifest m [] a Hm).
    assert (Hall : filter (λ s, s ∉ signatures []) (lastOperationSignatures a)
                   = lastOperationSignatures a)
      by (apply filter_all; intros; apply not_elem_of_nil).
    rewrite Hall. reflexivity. }
  split; [exact Hcalls|]. split.
  - rewrite (updateManifest_valid m [] a Hm). reflexivity.
  - intros c s Hs. rewrite cache_after_cache_calls, Hcalls. clear Hcalls Hm.
    revert c. induction (lastOperationSignatures a) as [|s' l IH]; intros c.
    + apply elem_of_nil in Hs. destruct Hs.
    + cbn [fmap list_fmap].
      change (cache_after (CacheDelete (getCacheKey s') :: ((λ s, CacheDelete (getCacheKey s)) <$> l)) c)
        with (cache_after ((λ s, CacheDelete (getCacheKey s)) <$> l)
                (delete (getCacheKey s') c)).
      destruct (decide (s ∈ l)) as [Hl|Hl]; [apply IH, Hl|].
      apply elem_of_cons in Hs as [->|Hs]; [|contradiction].
      rewrite cache_after_untouched; [apply lookup_delete_eq| |].
      * intros v [s0 [[=] _]]%list_elem_of_fmap.
      * intros [s0 [Heq Hs0]]%list_elem_of_fmap.
        assert (Hk : getCacheKey s' = getCacheKey s0) by congruence.
        apply getCacheKey_inj in Hk. subst s0. contradiction.
Qed.

(** X22.  With an engine that is [null] the constructor does not reach its own
    error: [typeof null] is ["object"], and reading [serviceID] from [null] throws a
    [TypeError]. *)
Theorem constructor_null_engine (opts : AgentOptions) :
  truthy (schemaHash opts) = true →
  engine opts = VNull →
  ∃ msg, new_Agent opts = ([], Throw (TypeError msg)).
Proof.
  intros Ht He. unfold new_Agent, constructor.
  rewrite bind_run. cbn [this]. cbv beta iota zeta. cbn [options new_fields].
  rewrite Ht, He. cbn [negb typeof].
  rewrite bool_decide_eq_false_2 by (intros Hn; apply Hn; reflexivity).
  rewrite bind_run. unfold lift at 1. cbn [get]. eauto.
Qed.

(** * The earlier reconciler against the later one *)

Lemma fst_Map_set k v m : (Engine.Map_set k v m).*1 = Set_add k m.*1.
Proof.
  induction m as [|[k' v'] m IH].
  - reflexivity.
  - cbn [Engine.Map_set]. case_bool_decide as Hk.
    + subst k'. cbn [fmap list_fmap fst]. unfold Set_add, Set_has.
      rewrite bool_decide_eq_true_2 by left. reflexivity.
    + cbn [fmap list_fmap fst]. rewrite IH. unfold Set_add, Set_has.
      case_bool_decide as Hin.
      * rewrite bool_decide_eq_true_2 by (right; exact Hin). reflexivity.
      * rewrite bool_decide_eq_false_2; [reflexivity|].
        intros [->|?]%elem_of_cons; contradiction.
Qed.

Lemma fst_entries_of ops : ∀ m0,
  (Engine.entries_of ops m0).*1 = replacement_of ops m0.*1.
Proof.
  induction ops as [|op ops IH]; intros m0; [reflexivity|].
  unfold Engine.entries_of, replacement_of in *. cbn [foldl].
  rewrite IH, fst_Map_set. reflexivity.
Qed.

Lemma NoDup_entries_of ops : NoDup (Engine.entries_of ops []).*1.
Proof. rewrite fst_entries_of. apply NoDup_replacement_of, NoDup_nil_2. Qed.

Lemma foldl_Set_add_NoDup l : ∀ s0,
  NoDup (s0 ++ l) → foldl (λ s x, Set_add x s) s0 l = s0 ++ l.
Proof.
  induction l as [|x l IH]; intros s0 Hnd; cbn [foldl].
  - rewrite app_nil_r. reflexivity.
  - assert (Hx : x ∉ s0).
    { apply NoDup_app in Hnd as (_ & Hdis & _). intros Hin.
      apply (Hdis x Hin). left. }
    unfold Set_add at 2, Set_has. rewrite bool_decide_eq_false_2 by exact Hx.
    rewrite IH; rewrite <- app_assoc; [reflexivity|exact Hnd].
Qed.

Lemma Engine_collect_loop_run ops : ∀ inc a,
  for_of ops
    (λ operation incomingOperations,
       mret (Engine.Map_set (signature operation) (document operation)
               incomingOperations))
    inc a
  = (a, [], Ok (Engine.entries_of ops inc)).
Proof.
  induction ops as [|op ops IH]; intros inc a; [reflexivity|].
  cbn [for_of]. rewrite bind_run. cbn. rewrite IH. reflexivity.
Qed.

Lemma Engine_add_loop_run entries : ∀ rep a,
  for_of entries
    (λ '(signature, document) replacementSignatures,
       let replacementSignatures := Set_add signature replacementSignatures in
       a ← this;
       (if negb (Set_has (lastOperationSignatures a) signature) then
          maybeLog ("Incoming manifest ADDs: " +:+ signature);;
          emit (CacheSet (Engine.cacheKey signature) document)
        else mret tt);;
       mret replacementSignatures)
    rep a
  = (a, Engine.additions a entries, Ok (foldl (λ s x, Set_add x s) rep entries.*1)).
Proof.
  induction entries as [|[s d] entries IH]; intros rep a; [reflexivity|].
  cbn [for_of]. rewrite bind_run.
  cbn beta iota zeta. rewrite bind_run. cbn [this]. cbn beta iota zeta.
  rewrite bind_run.
  destruct (Set_has (lastOperationSignatures a) s) eqn:Hhas; cbn [negb].
  - cbn. rewrite IH. cbn. rewrite Hhas. reflexivity.
  - rewrite bind_run, maybeLog_run. cbn [emit].
    cbn beta iota zeta. cbn [mret M_ret ret].
    rewrite IH. cbn [Engine.additions flat_map]. rewrite Hhas.
    cbn. rewrite !app_nil_r, <- !app_assoc. reflexivity.
Qed.

Lemma Engine_remove_loop_run (inc : list (string * string)) known : ∀ a,
  for_of known
    (λ signature (_ : unit),
       if negb (Engine.Map_has inc signature) then
         maybeLog ("Incoming manifest REMOVEs: " +:+ signature);;
         emit (CacheDelete (Engine.cacheKey signature))
       else mret tt)
    tt a
  = (a, Engine.removals a inc known, Ok tt).
Proof.
  induction known as [|s known IH]; intros a; [reflexivity|].
  cbn [for_of]. rewrite bind_run.
  destruct (Engine.Map_has inc s) eqn:Hhas; cbn [negb].
  - cbn. rewrite IH. cbn. rewrite Hhas. reflexivity.
  - rewrite bind_run, maybeLog_run. cbn [emit]. cbn beta iota zeta.
    rewrite IH. cbn [Engine.removals flat_map]. rewrite Hhas. reflexivity.
Qed.

(** On a manifest of valid shape the earlier reconciler issues the additions of
    the map it built, then the removals, and stores the keys of the map. *)
Lemma Engine_updateManifest_valid m ops a :
  valid_manifest m ops →
  Engine.updateManifest m a =
    (set_lastOperationSignatures (replacement_of ops []) a,
     Engine.additions a (Engine.entries_of ops []) ++
     Engine.removals a (Engine.entries_of ops []) (lastOperationSignatures a),
     Ok tt).
Proof.
  intros (Ht & Hv & Ho). unfold Engine.updateManifest. rewrite Ht. cbn [negb].
  rewrite bind_run. unfold lift at 1. rewrite Hv. cbn beta iota zeta.
  cbn [is_number_1 Z.eqb Pos.eqb negb].
  rewrite bind_run. unfold lift at 1. rewrite Ho. cbn beta iota zeta.
  rewrite bind_run, Engine_collect_loop_run. cbn beta iota zeta.
  rewrite bind_run, Engine_add_loop_run. cbn beta iota zeta.
  rewrite bind_run. cbn [this]. cbn beta iota zeta.
  rewrite bind_run, Engine_remove_loop_run. cbn beta iota zeta. cbn [modify].
  rewrite !app_nil_l, !app_nil_r.
  rewrite (foldl_Set_add_NoDup _ []) by apply NoDup_entries_of.
  rewrite app_nil_l, fst_entries_of. reflexivity.
Qed.


Lemma Engine_removals_eq a ops known :
  Engine.removals a (Engine.entries_of ops []) known =
  removals a (incoming_of ops ∅) known.
Proof.
  unfold Engine.removals, removals. induction known as [|s known IH]; [reflexivity|].
  cbn [flat_map]. rewrite IH. f_equal.
  assert (Hhas : Engine.Map_has (Engine.entries_of ops []) s =
                 Map_has (incoming_of ops ∅) s).
  { apply eq_true_iff_eq. rewrite Map_has_incoming. unfold Engine.Map_has.
    rewrite bool_decide_eq_true, fst_entries_of, elem_of_replacement_of, elem_of_nil.
    tauto. }
  rewrite Hhas. reflexivity.
Qed.









Lemma entries_of_NoDup ops : ∀ m0,
  NoDup (m0.*1 ++ signatures ops) →
  Engine.entries_of ops m0 = m0 ++ ((λ op, (signature op, document op)) <$> ops).
Proof.
  induction ops as [|op ops IH]; intros m0 Hnd.
  - cbn. rewrite app_nil_r. reflexivity.
  - unfold Engine.entries_of in *. cbn [foldl].
    assert (Hset : Engine.Map_set (signature op) (document op) m0 =
                   m0 ++ [(signature op, document op)]).
    { assert (Hx : signature op ∉ m0.*1).
      { apply NoDup_app in Hnd as (_ & Hdis & _). intros Hin.
        apply (Hdis _ Hin). left. }
      clear -Hx. induction m0 as [|[k v] m0 IH]; [reflexivity|].
      cbn [Engine.Map_set]. cbn [fmap list_fmap fst] in Hx.
      apply not_elem_of_cons in Hx as [Hne Hx].
      rewrite bool_decide_eq_false_2 by exact Hne. rewrite IH by exact Hx.
      reflexivity. }
    rewrite Hset, IH.
    + rewrite <- app_assoc. reflexivity.
    + rewrite fmap_app, <- app_assoc. exact Hnd.
Qed.

(** X25.  On a manifest that names no signature twice the two reconcilers do the
    same thing call for call: the same lines are logged and the same cache calls
    are issued, in the same order. *)
Theorem Engine_updateManifest_same_run
    (a : Agent) (m : value) (ops : list Operation) :
  valid_manifest m ops →
  NoDup (signatures ops) →
  Engine.updateManifest m a = updateManifest m a.
Proof.
  intros Hm Hnd.
  rewrite (updateManifest_valid m ops a Hm), (Engine_updateManifest_valid m ops a Hm).
  rewrite Engine_removals_eq, (entries_of_NoDup ops []) by exact Hnd.
  rewrite app_nil_l. do 2 f_equal. f_equal.
  unfold Engine.additions, additions. clear.
  induction ops as [|op ops IH]; [reflexivity|].
  cbn [fmap list_fmap flat_map]. rewrite IH. reflexivity.
Qed.

Lemma set_keys_app t1 t2 : set_keys (t1 ++ t2) = set_keys t1 ++ set_keys t2.
Proof. apply omap_app. Qed.

Lemma set_keys_log_line a msg : set_keys (log_line a msg) = [].
Proof. unfold log_line. destruct (debug (options a)) as [[|]|]; reflexivity. Qed.

Lemma set_keys_Engine_additions a entries :
  set_keys (Engine.additions a entries) =
  getCacheKey <$> filter (λ s, s ∉ lastOperationSignatures a) entries.*1.
Proof.
  induction entries as [|[s d] entries IH]; [reflexivity|].
  unfold Engine.additions. cbn [flat_map]. fold (Engine.additions a entries).
  rewrite set_keys_app, IH. cbn [fmap list_fmap fst]. rewrite filter_cons.
  unfold Set_has. case_bool_decide as Hin.
  - rewrite decide_False by (intros Hn; exact (Hn Hin)). reflexivity.
  - rewrite decide_True by exact Hin.
    rewrite set_keys_app, set_keys_log_line. reflexivity.
Qed.

Lemma set_keys_removals a inc known : set_keys (removals a inc known) = [].
Proof.
  induction known as [|s known IH]; [reflexivity|].
  unfold removals. cbn [flat_map]. fold (removals a inc known).
  rewrite set_keys_app, IH. destruct (Map_has inc s); [reflexivity|].
  rewrite set_keys_app, set_keys_log_line. reflexivity.
Qed.

Lemma set_keys_additions a ops :
  set_keys (additions a ops) =
  getCacheKey <$> filter (λ s, s ∉ lastOperationSignatures a) (signatures ops).
Proof.
  induction ops as [|op ops IH]; [reflexivity|].
  unfold additions. cbn [flat_map]. fold (additions a ops).
  rewrite set_keys_app, IH. unfold signatures. cbn [fmap list_fmap]. rewrite filter_cons.
  unfold Set_has. case_bool_decide as Hin.
  - rewrite decide_False by (intros Hn; exact (Hn Hin)). reflexivity.
  - rewrite decide_True by exact Hin.
    rewrite set_keys_app, set_keys_log_line. reflexivity.
Qed.

(** X26.  The earlier reconciler sets a key at most once in a call, whatever the
    manifest repeats; the later one sets the key of a new signature once for each
    time the manifest names it, so the two issue the same number of [cache.set]
    only for a manifest whose new signatures are all different. *)
Theorem Engine_updateManifest_sets_each_key_once
    (a : Agent) (m : value) (ops : list Operation) :
  valid_manifest m ops →
  NoDup (set_keys (trace_of (Engine.updateManifest m a))) ∧
  set_keys (trace_of (updateManifest m a)) =
    getCacheKey <$> filter (λ s, s ∉ lastOperationSignatures a) (signatures ops) ∧
  (NoDup (set_keys (trace_of (updateManifest m a))) ↔
   set_keys (trace_of (updateManifest m a)) =
     set_keys (trace_of (Engine.updateManifest m a))).
Proof.
  intros Hm.
  assert (HE : set_keys (trace_of (Engine.updateManifest m a)) =
          getCacheKey <$> filter (λ s, s ∉ lastOperationSignatures a)
                            (replacement_of ops [])).
  { rewrite (Engine_updateManifest_valid m ops a Hm). cbn [trace_of fst snd].
    rewrite set_keys_app, Engine_removals_eq, set_keys_removals, app_nil_r.
    rewrite set_keys_Engine_additions, fst_entries_of. reflexivity. }
  assert (HL : set_keys (trace_of (updateManifest m a)) =
          getCacheKey <$> filter (λ s, s ∉ lastOperationSignatures a) (signatures ops)).
  { rewrite (updateManifest_valid m ops a Hm). cbn [trace_of fst snd].
    rewrite set_keys_app, set_keys_removals, app_nil_r.
    apply set_keys_additions. }
  assert (HndE : NoDup (set_keys (trace_of (Engine.updateManifest m a)))).
  { rewrite HE. apply NoDup_fmap_2; [intros x y; apply getCacheKey_inj|].
    apply NoDup_filter, NoDup_replacement_of, NoDup_nil_2. }
  split; [exact HndE|]. split; [exact HL|].
  split; [|intros ->; exact HndE].
  intros Hnd. rewrite HL, HE. f_equal.
  rewrite HL in Hnd. apply NoDup_fmap_1 in Hnd.
  clear -Hnd. unfold replacement_of.
  change (filter (λ s, s ∉ lastOperationSignatures a) (signatures ops)) with
    (filter (λ s, s ∉ lastOperationSignatures a) ([] ++ signatures ops)) at 1.
  assert (Hgen : ∀ s0,
            NoDup (filter (λ s, s ∉ lastOperationSignatures a) (s0 ++ signatures ops)) →
            filter (λ s, s ∉ lastOperationSignatures a) (s0 ++ signatures ops) =
            filter (λ s, s ∉ lastOperationSignatures a)
              (foldl (λ s op, Set_add (signature op) s) s0 ops)).
  { clear Hnd. induction ops as [|op ops IH]; intros s0 Hnd.
    - cbn. rewrite app_nil_r. reflexivity.
    - cbn [foldl]. unfold signatures in *. cbn [fmap list_fmap] in *.
      unfold Set_add, Set_has. case_bool_decide as Hin.
      + destruct (decide (signature op ∈ lastOperationSignatures a)) as [Hk|Hk].
        * rewrite filter_app, filter_cons, decide_False in Hnd |- *
            by (intros Hn; exact (Hn Hk)).
          rewrite <- filter_app in Hnd |- *. apply IH, Hnd.
        * exfalso. rewrite filter_app, filter_cons, decide_True in Hnd by exact Hk.
          apply NoDup_app in Hnd as (_ & Hdis & _).
          apply (Hdis (signature op)); [|left].
          apply list_elem_of_filter. split; assumption.
      + rewrite <- IH.
        * rewrite <- app_assoc. reflexivity.
        * rewrite <- app_assoc. exact Hnd. }
  apply Hgen. exact Hnd.
Qed.


(** * The plugin *)


Section PluginProperties.

Context `{Platform}.



End PluginProperties.

(** * The properties on concrete runs *)

(** The scenario of the specification: the manifest with ["a"], then the one with
    ["b"]. *)
Example scenario_a_then_b :
  let r1 := updateManifest manifest_a example_agent in
  let r2 := updateManifest manifest_b (state_of r1) in
  trace_of r1 = [CacheSet "apq:a" "docA"] ∧
  trace_of r2 = [CacheSet "apq:b" "docB"; CacheDelete "apq:a"] ∧
  lastOperationSignatures (state_of r2) = ["b"].
Proof. repeat split. Qed.

Example scenario_a_then_b_cache :
  cache_after
    (trace_of (updateManifest manifest_a example_agent) ++
     trace_of (updateManifest manifest_b
                 (state_of (updateManifest manifest_a example_agent))))
    ∅
  = {[ "apq:b" := "docB" ]}.
Proof. apply map_eq. intros k. vm_compute. reflexivity. Qed.

Lemma updateManifest_reconciles_cache_witness :
  valid_manifest manifest_a [mkOperation "a" "docA"] ∧
  valid_manifest manifest_b [mkOperation "b" "docB"] ∧
  live_keys [] = keys_of (lastOperationSignatures example_agent) ∧
  live_keys
    ([] ++ trace_of (updateManifest manifest_a example_agent) ++
     trace_of (updateManifest manifest_b
                 (state_of (updateManifest manifest_a example_agent))))
  = keys_of (signatures [mkOperation "b" "docB"]).
Proof.
  assert (H1 : valid_manifest manifest_a [mkOperation "a" "docA"])
    by (split; [reflexivity|split; reflexivity]).
  assert (H2 : valid_manifest manifest_b [mkOperation "b" "docB"])
    by (split; [reflexivity|split; reflexivity]).
  assert (H3 : live_keys [] = keys_of (lastOperationSignatures example_agent))
    by reflexivity.
  split; [exact H1|]. split; [exact H2|]. split; [exact H3|].
  exact (proj1 (proj2 (proj2
    (updateManifest_reconciles_cache example_agent [] manifest_a manifest_b
       [mkOperation "a" "docA"] [mkOperation "b" "docB"] H1 H2 H3)))).
Defined.

Lemma updateManifest_skips_known_signatures_witness :
  valid_manifest manifest_a [mkOperation "a" "docA"] ∧
  valid_manifest (mkManifest [mkOperation "a" "another document"])
    [mkOperation "a" "another document"] ∧
  cache_calls
    (trace_of (updateManifest manifest_a
                 (state_of (updateManifest manifest_a example_agent)))) = [].
Proof.
  assert (H1 : valid_manifest manifest_a [mkOperation "a" "docA"])
    by (split; [reflexivity|split; reflexivity]).
  assert (H2 : valid_manifest (mkManifest [mkOperation "a" "another document"])
                 [mkOperation "a" "another document"])
    by (split; [reflexivity|split; reflexivity]).
  split; [exact H1|]. split; [exact H2|].
  exact (proj1
    (updateManifest_skips_known_signatures example_agent manifest_a
       (mkManifest [mkOperation "a" "another document"])
       [mkOperation "a" "docA"] [mkOperation "a" "another document"] H1 H2)).
Defined.

Lemma updateManifest_rejects_invalid_witness :
  get manifest_version_2 "version" ≠ Ok (VNumber 1) ∧
  updateManifest manifest_version_2 example_agent =
    (example_agent, [], Throw (Error "Invalid manifest format.")).
Proof.
  assert (H1 : get manifest_version_2 "version" ≠ Ok (VNumber 1))
    by (intros Heq; vm_compute in Heq; discriminate Heq).
  split; [exact H1|].
  apply (updateManifest_rejects_invalid example_agent manifest_version_2).
  right. right. left. exact H1.
Defined.

Lemma checkForUpdate_in_flight_witness :
  requestInFlight in_flight_agent = Some (Ok tt) ∧
  constructed example_agent ∧
  requestInFlight example_agent = None ∧
  outcome_of (@checkForUpdate_begin example_platform 0 in_flight_agent)
    = Ok (InFlight (Ok tt)).
Proof.
  assert (H1 : requestInFlight in_flight_agent = Some (Ok tt)) by reflexivity.
  assert (H2 : constructed example_agent) by reflexivity.
  assert (H3 : requestInFlight example_agent = None) by reflexivity.
  split; [exact H1|]. split; [exact H2|]. split; [exact H3|].
  exact (proj1
    (@checkForUpdate_in_flight example_platform in_flight_agent example_agent
       (Ok tt) 0 0 1 2 network_down H1 H2 H3)).
Defined.

(** C4 does not hold as the specification states it: with the network down, the first of two overlapping
    callers sees its promise rejected, the second sees its own fulfilled. *)
Lemma overlapping_callers_see_different_results :
  ∃ err,
    outcome_of (@overlapping_calls example_platform 0 1 network_down 2 example_agent)
      = Ok (Throw err, Ok VUndefined) ∧
    Throw err ≠ (Ok VUndefined : result value).
Proof. eexists. split; [vm_compute; reflexivity|discriminate]. Qed.

Lemma tryUpdate_not_modified_witness :
  constructed example_agent ∧
  (∀ url init, ∃ response,
     network_answers response_not_modified url init = Ok response ∧
     status response = 304) ∧
  outcome_of (@tryUpdate example_platform (network_answers response_not_modified)
                example_agent) = Ok false.
Proof.
  assert (H1 : constructed example_agent) by reflexivity.
  assert (H2 : ∀ url init, ∃ response,
            network_answers response_not_modified url init = Ok response ∧
            status response = 304)
    by (intros url init; exists response_not_modified; split; reflexivity).
  split; [exact H1|]. split; [exact H2|].
  exact (proj1
    (@tryUpdate_not_modified example_platform example_agent
       (network_answers response_not_modified) 0 1 H1 H2)).
Defined.

Lemma checkForUpdate_clears_marker_witness :
  requestInFlight example_agent = None ∧
  requestInFlight
    (state_of (@checkForUpdate example_platform 0 network_down 1 example_agent)) = None.
Proof.
  assert (H1 : requestInFlight example_agent = None) by reflexivity.
  split; [exact H1|].
  exact (proj1 (proj2 (proj2
    (@checkForUpdate_clears_marker example_platform example_agent 0 network_down 1 H1)))).
Defined.

Lemma tryUpdate_stores_decoded_etag_witness :
  constructed example_agent ∧
  status response_ok ≠ 304 ∧
  ok response_ok = true ∧
  json response_ok = Ok manifest_a ∧
  valid_manifest manifest_a [mkOperation "a" "docA"] ∧
  headers_get response_ok "etag" = Some (quoted "v1") ∧
  quoted "v1" ≠ EmptyString ∧
  @JSON_parse example_platform (quoted "v1") = Ok (VString "v1") ∧
  lastSuccessfulETag
    (state_of (@tryUpdate example_platform (network_answers response_ok) example_agent))
  = Some (VString "v1").
Proof.
  assert (H1 : constructed example_agent) by reflexivity.
  assert (H2 : ∀ url init, network_answers response_ok url init = Ok response_ok)
    by reflexivity.
  assert (H3 : status response_ok ≠ 304) by discriminate.
  assert (H4 : ok response_ok = true) by reflexivity.
  assert (H5 : ∀ c, headers_get response_ok "content-type" = Some c →
                    c = EmptyString ∨ c = "application/json")
    by (intros c Hc; vm_compute in Hc; injection Hc as <-; right; reflexivity).
  assert (H6 : json response_ok = Ok manifest_a) by reflexivity.
  assert (H7 : valid_manifest manifest_a [mkOperation "a" "docA"])
    by (split; [reflexivity|split; reflexivity]).
  assert (H8 : headers_get response_ok "etag" = Some (quoted "v1")) by reflexivity.
  assert (H9 : quoted "v1" ≠ EmptyString) by discriminate.
  assert (H10 : @JSON_parse example_platform (quoted "v1") = Ok (VString "v1"))
    by reflexivity.
  repeat (split; [assumption|]).
  exact (proj1 (proj2
    (@tryUpdate_stores_decoded_etag example_platform example_agent
       (network_answers response_ok) response_ok manifest_a
       [mkOperation "a" "docA"] (quoted "v1") (VString "v1")
       H1 H2 H3 H4 H5 H6 H7 H8 H9 H10))).
Defined.

(** C7 does not hold as the specification states it: the header received is ["v1"] with its quotes, four
    characters; the validator stored is [v1], two characters. *)
Lemma stored_etag_is_not_the_raw_header :
  let r := @tryUpdate example_platform (network_answers response_ok) example_agent in
  headers_get response_ok "etag" = Some (quoted "v1") ∧
  outcome_of r = Ok true ∧
  lastSuccessfulETag (state_of r) = Some (VString "v1") ∧
  lastSuccessfulETag (state_of r) ≠ Some (VString (quoted "v1")).
Proof.
  cbv zeta. split; [reflexivity|]. split; [reflexivity|]. split; [reflexivity|].
  intros Heq. vm_compute in Heq. discriminate Heq.
Qed.

Lemma constructor_rejects_missing_options_witness :
  typeof (engine no_engine_options) ≠ "object" ∧
  ∃ e, new_Agent no_engine_options = ([], Throw e).
Proof.
  assert (H1 : typeof (engine no_engine_options) ≠ "object") by discriminate.
  split; [exact H1|].
  apply (proj1 (constructor_rejects_missing_options no_engine_options)).
  right. left. exact H1.
Defined.

(** C8 does not hold as the specification states it: options whose service identifier is the empty string
    lack a non-empty service identifier, and the constructor returns an agent. *)
Lemma constructor_accepts_empty_serviceID :
  get (engine empty_serviceID_options) "serviceID" = Ok (VString EmptyString) ∧
  new_Agent empty_serviceID_options = ([], Ok (new_fields empty_serviceID_options)).
Proof. split; reflexivity. Qed.

Lemma start_arms_at_most_one_timer_witness :
  timer example_agent = None ∧
  timer (set_timer (Some 7%positive) example_agent) = Some 7%positive ∧
  timers_armed
    (trace_of (@start example_platform 0 network_down 1 9%positive
                 (set_timer (Some 7%positive) example_agent))) = [] ∧
  active_timers
    ((@run_steps example_platform
        [DoStart 0 network_down 1 7%positive;
         DoStart 2 (network_answers response_ok) 3 9%positive] example_agent).2 ++
     trace_of (stop
       (@run_steps example_platform
          [DoStart 0 network_down 1 7%positive;
           DoStart 2 (network_answers response_ok) 3 9%positive] example_agent).1))
  = ∅.
Proof.
  assert (H1 : timer example_agent = None) by reflexivity.
  assert (H2 : timer (set_timer (Some 7%positive) example_agent) = Some 7%positive)
    by reflexivity.
  pose proof (@start_arms_at_most_one_timer example_platform example_agent
                (set_timer (Some 7%positive) example_agent) 7%positive
                [DoStart 0 network_down 1 7%positive;
                 DoStart 2 (network_answers response_ok) 3 9%positive]
                0 network_down 1 9%positive H1 H2) as [[_ Hstart] [_ Hstop]].
  split; [exact H1|]. split; [exact H2|]. split; [exact Hstart|exact Hstop].
Defined.

(** Two [start]s in a row arm one timer, the first; a [stop] then clears it. *)
Example two_starts_one_timer :
  let run := @run_steps example_platform
               [DoStart 0 network_down 1 7%positive;
                DoStart 2 (network_answers response_ok) 3 9%positive;
                DoStop] example_agent in
  timers_armed run.2 = [SetInterval 7%positive 30000] ∧
  timer run.1 = Some 7%positive ∧
  filter is_timer_effect run.2 = [SetInterval 7%positive 30000; ClearInterval 7%positive].
Proof. repeat split. Qed.

(** ** The other properties on concrete runs *)


Lemma tryUpdate_bad_status_witness :
  constructed example_agent ∧
  status response_server_error ≠ 304 ∧
  ok response_server_error = false ∧
  outcome_of (@tryUpdate example_platform (network_answers response_server_error)
                example_agent)
    = Throw (Error "Could not fetch manifest Internal Server Error").
Proof.
  assert (H1 : constructed example_agent) by reflexivity.
  assert (H2 : ∀ url init,
            network_answers response_server_error url init = Ok response_server_error)
    by reflexivity.
  assert (H3 : status response_server_error ≠ 304) by discriminate.
  assert (H4 : ok response_server_error = false) by reflexivity.
  split; [exact H1|]. split; [exact H3|]. split; [exact H4|].
  exact (proj1
    (@tryUpdate_bad_status example_platform example_agent
       (network_answers response_server_error) response_server_error H1 H2 H3 H4)).
Defined.

Lemma tryUpdate_unexpected_content_type_witness :
  constructed example_agent ∧
  ok response_with_charset = true ∧
  headers_get response_with_charset "content-type"
    = Some "application/json; charset=utf-8" ∧
  outcome_of (@tryUpdate example_platform (network_answers response_with_charset)
                example_agent)
    = Throw (Error "Unexpected 'Content-Type' header: application/json; charset=utf-8").
Proof.
  assert (H1 : constructed example_agent) by reflexivity.
  assert (H2 : ∀ url init,
            network_answers response_with_charset url init = Ok response_with_charset)
    by reflexivity.
  assert (H3 : status response_with_charset ≠ 304) by discriminate.
  assert (H4 : ok response_with_charset = true) by reflexivity.
  assert (H5 : headers_get response_with_charset "content-type"
               = Some "application/json; charset=utf-8") by reflexivity.
  assert (H6 : "application/json; charset=utf-8" ≠ EmptyString) by discriminate.
  assert (H7 : "application/json; charset=utf-8" ≠ "application/json") by discriminate.
  split; [exact H1|]. split; [exact H4|]. split; [exact H5|].
  exact (proj1
    (@tryUpdate_unexpected_content_type example_platform example_agent
       (network_answers response_with_charset) response_with_charset
       "application/json; charset=utf-8" H1 H2 H3 H4 H5 H6 H7)).
Defined.


Lemma tryUpdate_etag_not_json_witness :
  constructed example_agent ∧
  valid_manifest manifest_a [mkOperation "a" "docA"] ∧
  headers_get response_weak_etag "etag" = Some weak_etag ∧
  @JSON_parse example_platform weak_etag
    = Throw (mkError "SyntaxError" "Unexpected token in JSON") ∧
  outcome_of (@tryUpdate example_platform (network_answers response_weak_etag)
                example_agent)
    = Throw (mkError "SyntaxError" "Unexpected token in JSON") ∧
  lastSuccessfulETag
    (state_of (@tryUpdate example_platform (network_answers response_weak_etag)
                 example_agent))
    = lastSuccessfulETag example_agent.
Proof.
  assert (H1 : constructed example_agent) by reflexivity.
  assert (H2 : ∀ url init,
            network_answers response_weak_etag url init = Ok response_weak_etag)
    by reflexivity.
  assert (H3 : status response_weak_etag ≠ 304) by discriminate.
  assert (H4 : ok response_weak_etag = true) by reflexivity.
  assert (H5 : content_type_ok response_weak_etag = true) by reflexivity.
  assert (H6 : json response_weak_etag = Ok manifest_a) by reflexivity.
  assert (H7 : valid_manifest manifest_a [mkOperation "a" "docA"])
    by (split; [reflexivity|split; reflexivity]).
  assert (H8 : headers_get response_weak_etag "etag" = Some weak_etag) by reflexivity.
  assert (H9 : weak_etag ≠ EmptyString) by discriminate.
  assert (H10 : @JSON_parse example_platform weak_etag
                = Throw (mkError "SyntaxError" "Unexpected token in JSON"))
    by reflexivity.
  split; [exact H1|]. split; [exact H7|]. split; [exact H8|]. split; [exact H10|].
  pose proof (@tryUpdate_etag_not_json example_platform example_agent
                (network_answers response_weak_etag) response_weak_etag manifest_a
                [mkOperation "a" "docA"] weak_etag
                (mkError "SyntaxError" "Unexpected token in JSON")
                H1 H2 H3 H4 H5 H6 H7 H8 H9 H10) as (Hout & Hetag & _).
  split; [exact Hout|exact Hetag].
Defined.

Lemma tryUpdate_without_etag_witness :
  constructed example_agent ∧
  valid_manifest manifest_a [mkOperation "a" "docA"] ∧
  headers_get response_without_etag "etag" = None ∧
  outcome_of (@tryUpdate example_platform (network_answers response_without_etag)
                example_agent) = Ok true ∧
  lastSuccessfulETag
    (state_of (@tryUpdate example_platform (network_answers response_without_etag)
                 example_agent))
    = lastSuccessfulETag example_agent.
Proof.
  assert (H1 : constructed example_agent) by reflexivity.
  assert (H2 : ∀ url init,
            network_answers response_without_etag url init = Ok response_without_etag)
    by reflexivity.
  assert (H3 : status response_without_etag ≠ 304) by discriminate.
  assert (H4 : ok response_without_etag = true) by reflexivity.
  assert (H5 : content_type_ok response_without_etag = true) by reflexivity.
  assert (H6 : json response_without_etag = Ok manifest_a) by reflexivity.
  assert (H7 : valid_manifest manifest_a [mkOperation "a" "docA"])
    by (split; [reflexivity|split; reflexivity]).
  assert (H8 : headers_get response_without_etag "etag" = None) by reflexivity.
  split; [exact H1|]. split; [exact H7|]. split; [exact H8|].
  pose proof (@tryUpdate_without_etag example_platform example_agent
                (network_answers response_without_etag) response_without_etag
                manifest_a [mkOperation "a" "docA"]
                H1 H2 H3 H4 H5 H6 H7 (or_introl H8)) as (Hout & Hetag & _).
  split; [exact Hout|exact Hetag].
Defined.

Lemma tryUpdate_keeps_etag_unless_true_witness :
  constructed example_agent ∧
  outcome_of (@tryUpdate example_platform network_down example_agent) ≠ Ok true ∧
  lastSuccessfulETag (state_of (@tryUpdate example_platform network_down example_agent))
    = lastSuccessfulETag example_agent.
Proof.
  assert (H1 : constructed example_agent) by reflexivity.
  assert (H2 : outcome_of (@tryUpdate example_platform network_down example_agent)
               ≠ Ok true)
    by (intros Heq; vm_compute in Heq; discriminate Heq).
  split; [exact H1|]. split; [exact H2|].
  exact (@tryUpdate_keeps_etag_unless_true example_platform example_agent network_down
           H1 H2).
Defined.

Lemma checkForUpdate_warns_after_a_minute_witness :
  requestInFlight example_agent = None ∧
  (60000 < 70000 - 1000)%Z ∧
  ∃ msg,
    trace_of
      (@checkForUpdate_begin example_platform 70000
         (state_of (@checkForUpdate example_platform 0 (network_answers response_ok)
                      1000 example_agent)))
    = [ConsoleWarn msg].
Proof.
  assert (H1 : requestInFlight example_agent = None) by reflexivity.
  assert (H2 : (60000 < 70000 - 1000)%Z) by lia.
  split; [exact H1|]. split; [exact H2|].
  refine (proj2 (proj2
    (@checkForUpdate_warns_after_a_minute example_platform example_agent 0
       (network_answers response_ok) 1000 70000 _ H1 _)) H2).
  vm_compute. reflexivity.
Defined.

Lemma checkForUpdate_failure_keeps_last_success_witness :
  requestInFlight example_agent = None ∧
  lastSuccessfulCheck
    (state_of (@checkForUpdate example_platform 0 network_down 1 example_agent))
    = lastSuccessfulCheck example_agent.
Proof.
  assert (H1 : requestInFlight example_agent = None) by reflexivity.
  split; [exact H1|].
  refine (@checkForUpdate_failure_keeps_last_success example_platform example_agent 0
            network_down 1 _ H1 _).
  vm_compute. reflexivity.
Defined.


Lemma debug_off_is_silent_witness :
  debug (options example_agent) ≠ Some true ∧
  ConsoleDebug "Incoming manifest ADDs: a" ∉
    (@run_steps example_platform
       [DoStart 0 (network_answers response_ok) 1 7%positive; DoStop]
       example_agent).2.
Proof.
  assert (H1 : debug (options example_agent) ≠ Some true) by discriminate.
  split; [exact H1|].
  exact (@debug_off_is_silent example_platform example_agent
           [DoStart 0 (network_answers response_ok) 1 7%positive; DoStop]
           "Incoming manifest ADDs: a" H1).
Defined.

Lemma agent_only_touches_its_namespace_witness :
  (∀ s, "sess:42" ≠ "apq:" +:+ s) ∧
  cache_after
    (@run_steps example_platform
       [DoStart 0 (network_answers response_ok) 1 7%positive;
        DoUpdateManifest manifest_b]
       example_agent).2
    {[ "sess:42" := "kept" ]} !! "sess:42"
  = ({[ "sess:42" := "kept" ]} : gmap string string) !! "sess:42".
Proof.
  assert (H1 : ∀ s, "sess:42" ≠ "apq:" +:+ s) by (intros s; discriminate).
  split; [exact H1|].
  exact (proj1
    (@agent_only_touches_its_namespace example_platform example_agent
       [DoStart 0 (network_answers response_ok) 1 7%positive;
        DoUpdateManifest manifest_b]
       {[ "sess:42" := "kept" ]} "sess:42" H1)).
Defined.

Lemma every_request_has_the_same_url_witness :
  constructed example_agent ∧
  Fetch (@manifestUrl_of example_platform example_agent)
        (fetchOptions_of example_agent) ∈
    (@run_steps example_platform [DoTick 0 network_down 1] example_agent).2 ∧
  @manifestUrl_of example_platform
    (@run_steps example_platform [DoTick 0 network_down 1] example_agent).1
  = @manifestUrl_of example_platform example_agent.
Proof.
  assert (H1 : constructed example_agent) by reflexivity.
  assert (H2 : Fetch (@manifestUrl_of example_platform example_agent)
                     (fetchOptions_of example_agent) ∈
               (@run_steps example_platform [DoTick 0 network_down 1] example_agent).2)
    by (vm_compute; left).
  split; [exact H1|]. split; [exact H2|].
  exact (proj2
    (@every_request_has_the_same_url example_platform example_agent
       [DoTick 0 network_down 1] _ _ H1 H2)).
Defined.

Lemma timesChecked_counts_requests_witness :
  constructed example_agent ∧
  _timesChecked
    (@run_steps example_platform
       [DoTick 0 network_down 1; DoTick 2 (network_answers response_ok) 3]
       example_agent).1
  = _timesChecked example_agent +
    Z.of_nat (length (fetches
      (@run_steps example_platform
         [DoTick 0 network_down 1; DoTick 2 (network_answers response_ok) 3]
         example_agent).2)).
Proof.
  assert (H1 : constructed example_agent) by reflexivity.
  split; [exact H1|].
  exact (@timesChecked_counts_requests example_platform example_agent
           [DoTick 0 network_down 1; DoTick 2 (network_answers response_ok) 3] H1).
Defined.

Lemma updateManifest_last_document_wins_witness :
  valid_manifest manifest_a_twice [mkOperation "a" "first"; mkOperation "a" "second"] ∧
  ("a" ∉ lastOperationSignatures example_agent) ∧
  cache_after (trace_of (updateManifest manifest_a_twice example_agent)) ∅
    !! getCacheKey "a" = Some "second".
Proof.
  assert (H1 : valid_manifest manifest_a_twice
                 [mkOperation "a" "first"; mkOperation "a" "second"])
    by (split; [reflexivity|split; reflexivity]).
  assert (H2 : [mkOperation "a" "first"; mkOperation "a" "second"] =
               [mkOperation "a" "first"] ++ mkOperation "a" "second" :: [])
    by reflexivity.
  assert (H3 : "a" ∉ signatures []) by apply not_elem_of_nil.
  assert (H4 : "a" ∉ lastOperationSignatures example_agent) by apply not_elem_of_nil.
  split; [exact H1|]. split; [exact H4|].
  exact (updateManifest_last_document_wins example_agent manifest_a_twice
           [mkOperation "a" "first"; mkOperation "a" "second"]
           [mkOperation "a" "first"] [] "a" "second" ∅ H1 H2 H3 H4).
Defined.

Lemma updateManifest_keeps_stored_document_witness :
  valid_manifest (mkManifest [mkOperation "a" "another document"])
    [mkOperation "a" "another document"] ∧
  "a" ∈ lastOperationSignatures agent_with_a ∧
  "a" ∈ signatures [mkOperation "a" "another document"] ∧
  cache_after
    (trace_of (updateManifest (mkManifest [mkOperation "a" "another document"])
                 agent_with_a))
    {[ "apq:a" := "docA" ]} !! getCacheKey "a"
  = ({[ "apq:a" := "docA" ]} : gmap string string) !! getCacheKey "a".
Proof.
  assert (H1 : valid_manifest (mkManifest [mkOperation "a" "another document"])
                 [mkOperation "a" "another document"])
    by (split; [reflexivity|split; reflexivity]).
  assert (H2 : "a" ∈ lastOperationSignatures agent_with_a) by (vm_compute; left).
  assert (H3 : "a" ∈ signatures [mkOperation "a" "another document"])
    by (vm_compute; left).
  split; [exact H1|]. split; [exact H2|]. split; [exact H3|].
  exact (updateManifest_keeps_stored_document agent_with_a
           (mkManifest [mkOperation "a" "another document"])
           [mkOperation "a" "another document"] "a" {[ "apq:a" := "docA" ]} H1 H2 H3).
Defined.

Lemma updateManifest_empty_manifest_witness :
  valid_manifest (mkManifest []) [] ∧
  cache_calls (trace_of (updateManifest (mkManifest []) agent_with_a))
    = [CacheDelete "apq:a"] ∧
  lastOperationSignatures (state_of (updateManifest (mkManifest []) agent_with_a)) = [].
Proof.
  assert (H1 : valid_manifest (mkManifest []) [])
    by (split; [reflexivity|split; reflexivity]).
  split; [exact H1|].
  pose proof (updateManifest_empty_manifest agent_with_a (mkManifest []) H1)
    as (Hcalls & Hstored & _).
  split; [exact Hcalls|exact Hstored].
Defined.

Lemma constructor_null_engine_witness :
  truthy (schemaHash null_engine_options) = true ∧
  engine null_engine_options = VNull ∧
  ∃ msg, new_Agent null_engine_options = ([], Throw (TypeError msg)).
Proof.
  assert (H1 : truthy (schemaHash null_engine_options) = true) by reflexivity.
  assert (H2 : engine null_engine_options = VNull) by reflexivity.
  split; [exact H1|]. split; [exact H2|].
  exact (constructor_null_engine null_engine_options H1 H2).
Defined.

Lemma Engine_updateManifest_same_run_witness :
  valid_manifest manifest_b [mkOperation "b" "docB"] ∧
  NoDup (signatures [mkOperation "b" "docB"]) ∧
  Engine.updateManifest manifest_b agent_with_a = updateManifest manifest_b agent_with_a.
Proof.
  assert (H1 : valid_manifest manifest_b [mkOperation "b" "docB"])
    by (split; [reflexivity|split; reflexivity]).
  assert (H2 : NoDup (signatures [mkOperation "b" "docB"]))
    by (apply NoDup_singleton).
  split; [exact H1|]. split; [exact H2|].
  exact (Engine_updateManifest_same_run agent_with_a manifest_b
           [mkOperation "b" "docB"] H1 H2).
Defined.

Lemma Engine_updateManifest_sets_each_key_once_witness :
  valid_manifest manifest_a_twice [mkOperation "a" "first"; mkOperation "a" "second"] ∧
  NoDup (set_keys (trace_of (Engine.updateManifest manifest_a_twice example_agent))) ∧
  set_keys (trace_of (updateManifest manifest_a_twice example_agent))
    = getCacheKey <$> ["a"; "a"].
Proof.
  assert (H1 : valid_manifest manifest_a_twice
                 [mkOperation "a" "first"; mkOperation "a" "second"])
    by (split; [reflexivity|split; reflexivity]).
  split; [exact H1|].
  pose proof (Engine_updateManifest_sets_each_key_once example_agent manifest_a_twice
                [mkOperation "a" "first"; mkOperation "a" "second"] H1)
    as (Hnd & Hkeys & _).
  split; [exact Hnd|exact Hkeys].
Defined.

(** The two reconcilers on a manifest that names a signature twice: the later one
    sets the key twice, the earlier one once, and the store ends the same. *)
Example reconcilers_on_a_repeated_signature :
  cache_calls (trace_of (updateManifest manifest_a_twice example_agent)) =
    [CacheSet "apq:a" "first"; CacheSet "apq:a" "second"] ∧
  cache_calls (trace_of (Engine.updateManifest manifest_a_twice example_agent)) =
    [CacheSet "apq:a" "second"] ∧
  lastOperationSignatures (state_of (Engine.updateManifest manifest_a_twice example_agent))
    = ["a"].
Proof. repeat split. Qed.
